(** * Conventional-commit tooling: version bumper and commit validator

  A shallow embedding of [tools/bump_version.py] and
  [tools/validate_commits.py], followed by the properties established
  about them.

  Modelling conventions.
  - A Python [str] is a [string]; a character is an [ascii].  The
    texts handled are commit subjects, version numbers and a changelog;
    case folding is the ASCII one (every literal of the two scripts that
    is matched or searched for is ASCII).
  - A Python [int] is a [Z].
  - [re.match(p, s, flags)] is only ever tested for truth, so a pattern
    is a regular expression over character classes and matching is the
    question whether some prefix of [s] belongs to its language.
  - The file system is a map from paths to file contents; a process run
    threads the file system and the lines printed on standard output,
    and ends normally, through [sys.exit] or with an uncaught
    exception.  The diagnostics written with [info] go to standard
    error and are not part of the model. *)

From Stdlib Require Import Bool Arith ZArith Lia List Ascii String.
From Stdlib Require Import Decimal DecimalString DecimalZ DecimalN.
From Stdlib Require Import Permutation.
Import ListNotations.

Local Open Scope list_scope.
Local Open Scope string_scope.

(* ================================================================= *)
(** ** Python strings *)

Module PyStr.

(** Line feed, the only character [.] refuses. *)
Definition LF : ascii := ascii_of_nat 10.

Definition code (c : ascii) : nat := nat_of_ascii c.

Definition between (lo hi : nat) (c : ascii) : bool :=
  (lo <=? code c)%nat && (code c <=? hi)%nat.

Definition is_upper (c : ascii) : bool := between 65 90 c.
Definition is_lower (c : ascii) : bool := between 97 122 c.
Definition is_digit (c : ascii) : bool := between 48 57 c.

(** [str.isspace] on one character: TAB, LF, VT, FF, CR, the four
    separators FS GS RS US, the space, NEL and the no-break space. *)
Definition isspace (c : ascii) : bool :=
  between 9 13 c || between 28 32 c
  || (code c =? 133)%nat || (code c =? 160)%nat.

Definition upper_char (c : ascii) : ascii :=
  if is_lower c then ascii_of_nat (code c - 32) else c.

Definition lower_char (c : ascii) : ascii :=
  if is_upper c then ascii_of_nat (code c + 32) else c.

Fixpoint smap (f : ascii -> ascii) (s : string) : string :=
  match s with
  | EmptyString => EmptyString
  | String c r => String (f c) (smap f r)
  end.

Fixpoint sall (p : ascii -> bool) (s : string) : bool :=
  match s with
  | EmptyString => true
  | String c r => p c && sall p r
  end.

(** [s.upper()] *)
Definition upper (s : string) : string := smap upper_char s.

(** [s.startswith(p)] *)
Fixpoint startswith (p s : string) : bool :=
  match p, s with
  | EmptyString, _ => true
  | String a p', String b s' => Ascii.eqb a b && startswith p' s'
  | String _ _, EmptyString => false
  end.

(** [needle in hay] *)
Fixpoint contains (needle hay : string) : bool :=
  startswith needle hay
  || match hay with
     | EmptyString => false
     | String _ r => contains needle r
     end.

(** [s.lstrip()], [s.rstrip()], [s.strip()] *)
Fixpoint lstrip (s : string) : string :=
  match s with
  | EmptyString => EmptyString
  | String c r => if isspace c then lstrip r else s
  end.

Fixpoint rstrip (s : string) : string :=
  match s with
  | EmptyString => EmptyString
  | String c r =>
      match rstrip r with
      | EmptyString => if isspace c then EmptyString else String c EmptyString
      | r' => String c r'
      end
  end.

Definition strip (s : string) : string := rstrip (lstrip s).

(** [s.split(sep)] for a separator of one character. *)
Fixpoint split (sep : ascii) (s : string) : list string :=
  match s with
  | EmptyString => [EmptyString]
  | String c r =>
      if Ascii.eqb c sep then EmptyString :: split sep r
      else match split sep r with
           | h :: t => String c h :: t
           | [] => [String c EmptyString]
           end
  end.

(** [sep.join(parts)] *)
Definition join (sep : string) (parts : list string) : string :=
  String.concat sep parts.

(** [l.insert(i, x)] for [i >= 0]: past the end it appends. *)
Definition list_insert {A} (i : nat) (x : A) (l : list A) : list A :=
  (firstn i l ++ x :: skipn i l)%list.

(** [str(n)] and [f"{n}"] for an [int]. *)
Definition str_of_int (n : Z) : string :=
  NilEmpty.string_of_int (Z.to_int n).

(** Digits of an [int] literal given to [int()]: single underscores are
    allowed between digits, nowhere else.  [prev] tells whether the
    previous character was a digit. *)
Fixpoint drop_underscores (prev : bool) (s : string) : option string :=
  match s with
  | EmptyString => if prev then Some EmptyString else None
  | String c r =>
      if Ascii.eqb c "_"
      then if prev then drop_underscores false r else None
      else option_map (String c) (drop_underscores true r)
  end.

(** The optional sign of an [int] literal, and what follows it. *)
Definition sign_split (t : string) : bool * string :=
  match t with
  | String "-" r => (true, r)
  | String "+" r => (false, r)
  | _ => (false, t)
  end.

(** [int(s)] in base ten; [None] stands for [ValueError]. *)
Definition int (s : string) : option Z :=
  let '(neg, body) := sign_split (strip s) in
  match drop_underscores false body with
  | None => None
  | Some ds =>
      match NilEmpty.uint_of_string ds with
      | Some d => Some (if neg then (- Z.of_uint d)%Z else Z.of_uint d)
      | None => None
      end
  end.

(** [s[:n]] *)
Fixpoint take (n : nat) (s : string) : string :=
  match n, s with
  | S k, String c r => String c (take k r)
  | _, _ => EmptyString
  end.

(** [s.split(sep)] for a separator of any positive length: the text is
    cut at the leftmost occurrences, which do not overlap.  [skip] counts
    the characters of a recognised separator that are still to be passed
    over. *)
Fixpoint split_on (sep : string) (skip : nat) (s : string) : list string :=
  match s with
  | EmptyString => [EmptyString]
  | String c r =>
      match skip with
      | S k => split_on sep k r
      | O =>
          if startswith sep s
          then EmptyString :: split_on sep (String.length sep - 1) r
          else match split_on sep 0 r with
               | h :: t => String c h :: t
               | [] => [String c EmptyString]
               end
      end
  end.

(** [s.count(c)] for one character. *)
Fixpoint count_char (c : ascii) (s : string) : nat :=
  match s with
  | EmptyString => 0
  | String x r => (if Ascii.eqb x c then 1 else 0) + count_char c r
  end.

End PyStr.

(* ================================================================= *)
(** ** Regular expressions and [re.match] *)

Module Re.
Import PyStr.

Inductive regex : Type :=
| Void : regex
| Eps : regex
| Class : (ascii -> bool) -> regex
| Seq : regex -> regex -> regex
| Alt : regex -> regex -> regex
| Star : regex -> regex.

(** [r+], [r?] and [r{1,}] *)
Definition Plus (r : regex) : regex := Seq r (Star r).
Definition Opt (r : regex) : regex := Alt r Eps.

(** One literal character; [ic] is the flag [re.IGNORECASE]. *)
Definition chr (ic : bool) (c : ascii) : regex :=
  Class (fun x => if ic then Ascii.eqb (lower_char x) (lower_char c)
                  else Ascii.eqb x c).

(** A literal word. *)
Fixpoint word (ic : bool) (w : string) : regex :=
  match w with
  | EmptyString => Eps
  | String c r => Seq (chr ic c) (word ic r)
  end.

(** A bracket set given by its membership test. *)
Definition set (ic : bool) (p : ascii -> bool) : regex :=
  Class (fun x => p x || (ic && (p (lower_char x) || p (upper_char x)))).

(** [.] without [re.DOTALL], [\d] and [\s]. *)
Definition dot : regex := Class (fun x => negb (Ascii.eqb x LF)).
Definition digit : regex := Class is_digit.
Definition space : regex := Class isspace.

Fixpoint nullable (r : regex) : bool :=
  match r with
  | Void => false
  | Eps => true
  | Class _ => false
  | Seq a b => nullable a && nullable b
  | Alt a b => nullable a || nullable b
  | Star _ => true
  end.

Fixpoint deriv (c : ascii) (r : regex) : regex :=
  match r with
  | Void => Void
  | Eps => Void
  | Class p => if p c then Eps else Void
  | Seq a b =>
      if nullable a then Alt (Seq (deriv c a) b) (deriv c b)
      else Seq (deriv c a) b
  | Alt a b => Alt (deriv c a) (deriv c b)
  | Star a => Seq (deriv c a) (Star a)
  end.

(** [re.match(r, s)] is a match object: some prefix of [s] is matched. *)
Fixpoint rmatch (r : regex) (s : string) : bool :=
  nullable r
  || match s with
     | EmptyString => false
     | String c s' => rmatch (deriv c r) s'
     end.

(** [re.match(r + "$", s)]: without [re.MULTILINE], [$] holds at the end
    of the string and just before a line feed that ends it. *)
Fixpoint rmatch_dollar (r : regex) (s : string) : bool :=
  (nullable r && (String.eqb s EmptyString
                  || String.eqb s (String LF EmptyString)))
  || match s with
     | EmptyString => false
     | String c s' => rmatch_dollar (deriv c r) s'
     end.

(** The language of a regular expression. *)
Inductive lang : regex -> string -> Prop :=
| L_eps : lang Eps EmptyString
| L_class p c : p c = true -> lang (Class p) (String c EmptyString)
| L_seq a b u v : lang a u -> lang b v -> lang (Seq a b) (u ++ v)
| L_alt_l a b u : lang a u -> lang (Alt a b) u
| L_alt_r a b u : lang b u -> lang (Alt a b) u
| L_star_nil a : lang (Star a) EmptyString
| L_star_app a u v : lang a u -> lang (Star a) v -> lang (Star a) (u ++ v).

End Re.

(* ================================================================= *)
(** ** Processes: file system, standard output, [sys.exit] *)

Module Proc.

(** Paths are strings; a file that does not exist has no content. *)
Definition FS : Type := string -> option string.

Record state : Type := mkState
  { fs : FS;                 (* the files *)
    stdout : list string }.  (* what [print] wrote, oldest first *)

Inductive result (A : Type) : Type :=
| Done : A -> result A          (* the call returned *)
| Exit : Z -> result A          (* [sys.exit(code)] *)
| Raised : string -> result A.  (* an exception nobody catches *)
Arguments Done {A} _.
Arguments Exit {A} _.
Arguments Raised {A} _.

Definition M (A : Type) : Type := state -> result A * state.

Definition ret {A} (a : A) : M A := fun st => (Done a, st).

Definition bind {A B} (m : M A) (k : A -> M B) : M B :=
  fun st =>
    match m st with
    | (Done a, st') => k a st'
    | (Exit c, st') => (Exit c, st')
    | (Raised e, st') => (Raised e, st')
    end.

Definition sys_exit {A} (code : Z) : M A := fun st => (Exit code, st).

Definition raise {A} (e : string) : M A := fun st => (Raised e, st).

(** [print(line)] *)
Definition print (line : string) : M unit :=
  fun st => (Done tt, mkState (fs st) (stdout st ++ [line])%list).

(** [path.exists()] and [path.read_text()] *)
Definition read (path : string) : M (option string) :=
  fun st => (Done (fs st path), st).

(** [path.write_text(content)] *)
Definition write_text (path content : string) : M unit :=
  fun st =>
    (Done tt,
     mkState (fun q => if String.eqb q path then Some content else fs st q)
             (stdout st)).


End Proc.

Declare Scope proc_scope.
Delimit Scope proc_scope with proc.
Notation "x <- m ;; k" := (Proc.bind m (fun x => k))
(at level 61, m at next level, right associativity) : proc_scope.
Notation "m ;; k" := (Proc.bind m (fun _ => k))
(at level 61, right associativity) : proc_scope.

(* ================================================================= *)
(** ** [tools/bump_version.py] *)

Module BumpVersion.
Import PyStr Re Proc.

Definition nl : string := String LF EmptyString.

(** What the two [git] subprocesses answer; [None] is
    [subprocess.CalledProcessError]. *)
Record Git : Type := mkGit
  { describe_returncode : Z;
    describe_stdout : string;
    log_since : string -> option string;   (* git log <tag>..HEAD *)
    log_all : option string }.             (* git log *)

(** [get_git_commits_since_last_tag] *)
Definition get_git_commits_since_last_tag (g : Git) : list string :=
  let last_tag :=
    if (describe_returncode g =? 0)%Z
    then Some (strip (describe_stdout g)) else None in
  let result :=
    match last_tag with
    | Some (String c t) => log_since g (String c t)
    | _ => log_all g
    end in
  match result with
  | Some out =>
      match out with
      | EmptyString => []
      | _ => split LF (strip out)
      end
  | None => []
  end.

(** [r'^BREAKING CHANGE:'], [r'^feat.*!:'], [r'^fix.*!:'] under
    [re.IGNORECASE]. *)
Definition breaking_patterns : list regex :=
  [ word true "BREAKING CHANGE:";
    Seq (word true "feat") (Seq (Star dot) (word true "!:"));
    Seq (word true "fix") (Seq (Star dot) (word true "!:")) ].

(** [\(.+\)] *)
Definition scope_group : regex :=
  Seq (chr true "(") (Seq (Plus dot) (chr true ")")).

(** [r'^feat(\(.+\))?:'], [r'^fix(\(.+\))?:'] under [re.IGNORECASE]. *)
Definition feature_fix_patterns : list regex :=
  [ Seq (word true "feat") (Seq (Opt scope_group) (chr true ":"));
    Seq (word true "fix") (Seq (Opt scope_group) (chr true ":")) ].

(** [any(re.match(pattern, commit, re.IGNORECASE) for pattern in ps)] *)
Definition any_match (ps : list regex) (commit : string) : bool :=
  existsb (fun pattern => rmatch pattern commit) ps.

(** The variables of the loop of [analyze_commits]; [examined] counts
    the commits the loop has looked at and is not a variable of the
    source. *)
Record scan : Type := mkScan
  { has_breaking : bool;
    has_feature_or_fix : bool;
    examined : nat }.

(** The [for commit in commits] loop; a [break] returns at once. *)
Fixpoint scan_commits (commits : list string) (st : scan) : scan :=
  match commits with
  | [] => st
  | commit :: rest =>
      if any_match breaking_patterns commit
      then mkScan true (has_feature_or_fix st) (S (examined st))
      else if contains "BREAKING CHANGE" (upper commit)
      then mkScan true (has_feature_or_fix st) (S (examined st))
      else if any_match feature_fix_patterns commit
      then scan_commits rest (mkScan (has_breaking st) true (S (examined st)))
      else scan_commits rest
             (mkScan (has_breaking st) (has_feature_or_fix st)
                     (S (examined st)))
  end.

Definition scan_start : scan := mkScan false false 0.

(** [analyze_commits] *)
Definition analyze_commits (commits : list string) : string :=
  let st := scan_commits commits scan_start in
  if has_breaking st then "major"
  else if has_feature_or_fix st then "minor"
  else "none".

(** [r'^\d+\.\d+$'] without its final [$], which [rmatch_dollar] adds. *)
Definition version_re : regex :=
  Seq (Plus digit) (Seq (chr false ".") (Plus digit)).

Definition valid_version (s : string) : bool :=
  rmatch_dollar version_re s.

(** [read_current_version] *)
Definition read_current_version (version_file_path : string) : M string :=
  (content <- read version_file_path ;;
   match content with
   | None => sys_exit 1
   | Some text =>
       let version := strip text in
       if negb (valid_version version) then sys_exit 1
       else ret version
   end)%proc.

(** [f"{major}.{minor}"] *)
Definition format_version (major minor : Z) : string :=
  str_of_int major ++ "." ++ str_of_int minor.

(** [major, minor = map(int, current_version.split('.'))]; [None] is
    the [ValueError] of [int] or of the unpacking. *)
Definition parse_version (current_version : string) : option (Z * Z) :=
  match List.map int (split "." current_version) with
  | [Some major; Some minor] => Some (major, minor)
  | _ => None
  end.

(** [bump_version]; [None] is [ValueError]. *)
Definition bump_version (current_version bump_type : string)
  : option string :=
  match parse_version current_version with
  | Some (major, minor) =>
      if String.eqb bump_type "major"
      then Some (format_version (major + 1) 0)
      else if String.eqb bump_type "minor"
      then Some (format_version major (minor + 1))
      else Some current_version
  | None => None
  end.

(** [write_version] *)
Definition write_version (new_version version_file_path : string)
  : M unit :=
  write_text version_file_path (new_version ++ nl).

(** The entry [update_changelog] builds. *)
Definition new_entry (new_version today bump_type : string) : string :=
  "## [" ++ new_version ++ "] - " ++ today ++ nl
  ++ nl
  ++ "### Added" ++ nl
  ++ "- Automated version bump (" ++ bump_type ++ ")" ++ nl
  ++ nl
  ++ "### Changed" ++ nl
  ++ "- See commit history for detailed changes" ++ nl
  ++ nl
  ++ "---" ++ nl
  ++ nl.

(** The loop that looks for the first separator: [i] is the index of
    the head of [lines]; the result is [insert_index]. *)
Fixpoint find_insert_index (lines : list string) (i : nat) : option nat :=
  match lines with
  | [] => None
  | line :: rest =>
      if String.eqb (strip line) "---" && (i <? 20)%nat
      then Some (i + 2)%nat
      else find_insert_index rest (S i)
  end.

(** [update_changelog]; [today] is [datetime.now().strftime("%Y-%m-%d")]. *)
Definition update_changelog
    (today new_version bump_type changelog_file_path : string) : M unit :=
  (content <- read changelog_file_path ;;
   match content with
   | None => ret tt
   | Some changelog_content =>
       if contains ("## [" ++ new_version ++ "]") changelog_content
       then ret tt
       else
         let entry := new_entry new_version today bump_type in
         let lines := split LF changelog_content in
         match find_insert_index lines 0 with
         | Some (S insert_index') =>
             write_text changelog_file_path
               (join nl (list_insert (S insert_index') entry lines))
         | _ => ret tt
         end
   end)%proc.

(** The outcome of the [version_sync.py] subprocess. *)
Inductive sync_result : Type :=
| SyncOk : string -> sync_result          (* its standard output *)
| SyncFailed : string -> sync_result.     (* CalledProcessError, stderr *)

(** What lies outside the script: the answers of [git], the date, the
    project root and the behaviour of the synchronisation script, which
    receives the path of the version file and may change any file. *)
Record World : Type := mkWorld
  { git : Git;
    today : string;
    project_root : string;
    sync_run : string -> FS -> sync_result * FS }.

Definition version_sync_script (w : World) : string :=
  project_root w ++ "/tools/version_sync.py".

(** [run_version_sync] *)
Definition run_version_sync (w : World) (version_file_path : string)
  : M unit :=
  (script <- read (version_sync_script w) ;;
   match script with
   | None => ret tt
   | Some _ =>
       fun st =>
         match sync_run w version_file_path (fs st) with
         | (SyncOk _, fs') => (Done tt, mkState fs' (stdout st))
         | (SyncFailed _, fs') => (Exit 1, mkState fs' (stdout st))
         end
   end)%proc.

(** [--type], restricted by [choices=['auto', 'major', 'minor']]. *)
Inductive bump_choice : Type := Auto | ChooseMajor | ChooseMinor.

Definition choice_name (c : bump_choice) : string :=
  match c with
  | Auto => "auto"
  | ChooseMajor => "major"
  | ChooseMinor => "minor"
  end.

(** The parsed command line. *)
Record Args : Type := mkArgs
  { arg_type : bump_choice;
    arg_manual : option string;
    arg_dry_run : bool;
    arg_version_file : string;
    arg_changelog_file : string }.

(** [not commits or commits == ['']] *)
Definition no_commits (commits : list string) : bool :=
  match commits with
  | [] => true
  | [EmptyString] => true
  | _ => false
  end.

(** The part of [main] that settles [new_version] and [bump_type]. *)
Definition choose_version (w : World) (args : Args)
    (current_version : string) : M (string * string) :=
  match arg_manual args with
  | Some (String c m) =>
      let new_version := strip (String c m) in
      if negb (valid_version new_version) then sys_exit 1
      else ret (new_version, "manual")
  | _ =>
      (bump_type <-
         match arg_type args with
         | Auto =>
             let commits := get_git_commits_since_last_tag (git w) in
             if no_commits commits
             then (print current_version ;; sys_exit 0)
             else ret (analyze_commits commits)
         | choice => ret (choice_name choice)
         end ;;
       match bump_version current_version bump_type with
       | Some new_version => ret (new_version, bump_type)
       | None => raise "ValueError"
       end)%proc
  end.

(** The three calls of [main] under [# Make changes]. *)
Definition make_changes (w : World) (args : Args)
    (new_version bump_type : string) : M unit :=
  (write_version new_version (arg_version_file args) ;;
   update_changelog (today w) new_version bump_type
                    (arg_changelog_file args) ;;
   run_version_sync w (arg_version_file args))%proc.

(** [main] *)
Definition main (w : World) (args : Args) : M unit :=
  (current_version <- read_current_version (arg_version_file args) ;;
   chosen <- choose_version w args current_version ;;
   let new_version := fst chosen in
   let bump_type := snd chosen in
   if String.eqb new_version current_version
   then (print current_version ;; sys_exit 0)
   else if arg_dry_run args
   then (print new_version ;; sys_exit 0)
   else (make_changes w args new_version bump_type ;;
         print new_version))%proc.

End BumpVersion.

(* ================================================================= *)
(** ** [tools/validate_commits.py] *)

Module ValidateCommits.
Import PyStr Re.

Definition commit_types : list string :=
  ["feat"; "fix"; "docs"; "style"; "refactor"; "perf"; "test";
   "chore"; "build"; "ci"].

(** [w1|w2|...] *)
Definition alternatives (ws : list string) : regex :=
  fold_right (fun w r => Alt (word true w) r) Void ws.

(** [(feat|fix|docs|style|refactor|perf|test|chore|build|ci)] *)
Definition commit_type : regex := alternatives commit_types.

(** Membership in [[a-z0-9\-_]]. *)
Definition scope_char (c : ascii) : bool :=
  is_lower c || is_digit c || Ascii.eqb c "-" || Ascii.eqb c "_".

(** The pattern of [is_conventional_commit] under [re.IGNORECASE]:
    [^(feat|...|ci)(\([a-z0-9\-_]+\))?(!)?:\s.{1,}] *)
Definition pattern : regex :=
  Seq commit_type
    (Seq (Opt (Seq (chr true "(")
                   (Seq (Plus (set true scope_char)) (chr true ")"))))
       (Seq (Opt (chr true "!"))
          (Seq (chr true ":") (Seq space (Plus dot))))).

(** [is_conventional_commit] *)
Definition is_conventional_commit (message : string) : bool * string :=
  if startswith "Merge " message then (true, "merge")
  else if startswith "chore: bump version" message then (true, "automated")
  else if rmatch pattern message then (true, "conventional")
  else (false, "invalid format").

(** A commit of the pull request: [{'hash': ..., 'message': ...}]. *)
Record Commit : Type := mkCommit
  { hash : string;
    message : string }.

(** What lies outside [validate_commits.py]: the environment variable
    [GITHUB_BASE_REF] and the answers of the two [git] subprocesses, each
    given the argument the script builds; [None] is
    [subprocess.CalledProcessError]. *)
Record PrWorld : Type := mkPrWorld
  { github_base_ref : option string;
    merge_base : string -> option string;   (* git merge-base HEAD <ref> *)
    log_range : string -> option string }.  (* git log <range> *)

(** The body of the loop of [get_pr_commits] for one line. *)
Definition commit_of_line (line : string) : list Commit :=
  match line with
  | EmptyString => []
  | _ =>
      match split_on "|||" 0 line with
      | [h; m] => [mkCommit (take 8 h) m]
      | _ => []
      end
  end.

(** [get_pr_commits] *)
Definition get_pr_commits (w : PrWorld) : Proc.M (list Commit) :=
  let base_branch :=
    match github_base_ref w with
    | Some b => b
    | None => "main"
    end in
  match merge_base w ("origin/" ++ base_branch) with
  | None =>
      (Proc.print "⚠️  Warning: Could not get PR commits" ;; Proc.ret [])%proc
  | Some out =>
      let base_ref := strip out in
      match log_range w (base_ref ++ "..HEAD") with
      | None =>
          (Proc.print "⚠️  Warning: Could not get PR commits" ;;
           Proc.ret [])%proc
      | Some log =>
          Proc.ret (flat_map commit_of_line (split LF (strip log)))
      end
  end.

Definition nl : string := String LF EmptyString.
Definition quote : string := String (ascii_of_nat 34) EmptyString.

(** The lines [print_help] prints, one element for each [print]. *)
Definition help_lines : list string :=
  [ "Please use Conventional Commits format:" ++ nl;
    "  feat: add new feature";
    "  fix: resolve bug";
    "  docs: update documentation";
    "  chore: maintenance tasks";
    "  refactor: code restructuring";
    "  test: add or update tests";
    "  style: formatting changes";
    "  perf: performance improvements";
    nl ++ "With optional scope:";
    "  feat(dashboard): add dark mode";
    "  fix(api): resolve timeout issue";
    nl ++ "Breaking changes:";
    "  feat!: breaking API change";
    "  fix(core)!: breaking fix";
    nl ++ "For more info: https://www.conventionalcommits.org/";
    EmptyString ].

(** [print_help] *)
Definition print_help : Proc.M unit :=
  fold_right (fun line k => (Proc.print line ;; k)%proc) (Proc.ret tt)
             help_lines.

(** [validate_single_message] *)
Definition validate_single_message (message : string) : Proc.M bool :=
  (Proc.print ("🔍 Validating message: " ++ quote ++ message ++ quote
               ++ "..." ++ nl) ;;
   let '(is_valid, error_reason) := is_conventional_commit message in
   if is_valid
   then (Proc.print "✅ Message is valid!" ;; Proc.ret true)
   else (Proc.print ("❌ Invalid message format! Reason: " ++ error_reason
                     ++ nl) ;;
         print_help ;;
         Proc.ret false))%proc.

(** The loop of [validate_commits]: it prints one line for each commit
    and collects the invalid ones in [invalid_commits]. *)
Fixpoint check_commits (commits invalid_commits : list Commit)
  : Proc.M (list Commit) :=
  match commits with
  | [] => Proc.ret invalid_commits
  | commit :: rest =>
      let '(is_valid, commit_type) :=
        is_conventional_commit (message commit) in
      if is_valid
      then (Proc.print ("✅ " ++ hash commit ++ ": "
                        ++ take 60 (message commit) ++ "...") ;;
            check_commits rest invalid_commits)%proc
      else (Proc.print ("❌ " ++ hash commit ++ ": "
                        ++ take 60 (message commit) ++ "...") ;;
            check_commits rest (invalid_commits ++ [commit])%list)%proc
  end.

(** [validate_commits] *)
Definition validate_commits (w : PrWorld) : Proc.M bool :=
  (commits <- get_pr_commits w ;;
   match commits with
   | [] =>
       Proc.print "✅ No commits to validate (or could not read commits)" ;;
       Proc.ret true
   | _ =>
       Proc.print ("🔍 Validating "
                   ++ str_of_int (Z.of_nat (List.length commits))
                   ++ " commit(s)..." ++ nl) ;;
       invalid_commits <- check_commits commits [] ;;
       Proc.print EmptyString ;;
       match invalid_commits with
       | _ :: _ =>
           Proc.print ("❌ Invalid commit messages found!" ++ nl) ;;
           print_help ;;
           Proc.ret false
       | [] =>
           Proc.print "✅ All commits follow Conventional Commits standard!" ;;
           Proc.ret true
       end
   end)%proc.

(** The script body under [if __name__ == "__main__"]; [arg_message] is
    [--message]. *)
Definition script (w : PrWorld) (arg_message : option string)
  : Proc.M unit :=
  (success <-
     match arg_message with
     | Some (String c m) => validate_single_message (String c m)
     | _ => validate_commits w
     end ;;
   Proc.sys_exit (if success then 0 else 1)%Z)%proc.

End ValidateCommits.

(* ================================================================= *)
(** ** Vocabulary of the properties *)

Module Wording.
Import PyStr Re BumpVersion ValidateCommits.

(** Equal up to the case of ASCII letters. *)
Definition ci_eq (a b : string) : Prop :=
  smap lower_char a = smap lower_char b.

Definition not_lf (c : ascii) : bool := negb (Ascii.eqb c LF).

(** No line feed inside. *)
Definition one_line (s : string) : Prop := sall not_lf s = true.

(** Neither an upper-case nor a lower-case letter. *)
Definition caseless (c : ascii) : bool := negb (is_lower c) && negb (is_upper c).

(** [s] begins with [w], whatever the case of the letters. *)
Definition begins_ci (w s : string) : Prop :=
  exists p r, s = p ++ r /\ ci_eq p w.

(** [w] occurs in [s], whatever the case of the letters. *)
Definition contains_ci (w s : string) : Prop :=
  exists a m b, s = a ++ m ++ b /\ ci_eq m w.

(** The type [feat] or [fix]. *)
Definition feat_or_fix (ty : string) : Prop :=
  ci_eq ty "feat" \/ ci_eq ty "fix".

(** Nothing, or a non-empty text accepted by [ok] between parentheses. *)
Definition paren_scope (ok : string -> Prop) (sc : string) : Prop :=
  sc = "" \/ exists t, sc = "(" ++ t ++ ")" /\ t <> "" /\ ok t.

(** [feat] or [fix], then anything on the same line, then [!:]. *)
Definition bang_colon_after_type (c : string) : Prop :=
  exists ty mid rest,
    c = ty ++ mid ++ "!:" ++ rest /\ feat_or_fix ty /\ one_line mid.

(** What makes [analyze_commits] answer [major]. *)
Definition breaking_marker (c : string) : Prop :=
  begins_ci "BREAKING CHANGE:" c
  \/ bang_colon_after_type c
  \/ contains_ci "BREAKING CHANGE" c.

(** [feat] or [fix], an optional scope in parentheses, then the colon. *)
Definition feature_fix_header (c : string) : Prop :=
  exists ty sc rest,
    c = ty ++ sc ++ ":" ++ rest /\ feat_or_fix ty /\ paren_scope one_line sc.

(** One or more digits, a dot, one or more digits, and nothing else. *)
Definition digits_dot_digits (s : string) : Prop :=
  exists a b,
    s = a ++ "." ++ b /\ a <> "" /\ b <> ""
    /\ sall is_digit a = true /\ sall is_digit b = true.



(** One of the ten commit types, in any case. *)
Definition type_name (ty : string) : Prop :=
  exists w, In w commit_types /\ ci_eq ty w.

(** A letter of either case, a digit, a hyphen or an underscore. *)
Definition scope_letter (c : ascii) : bool := scope_char (lower_char c).

Definition scope_text (t : string) : Prop := sall scope_letter t = true.

(** What the pattern of [is_conventional_commit] accepts: a type, an
    optional scope, an optional [!], the colon, one white-space
    character and one more character that is not a line feed. *)
Definition conventional_form (m : string) : Prop :=
  exists ty sc bang ws c rest,
    m = ty ++ sc ++ bang ++ ":" ++ String ws (String c rest)
    /\ type_name ty /\ paren_scope scope_text sc
    /\ (bang = "" \/ bang = "!")
    /\ isspace ws = true /\ c <> LF.



(** The breaking test of the loop body of [analyze_commits]. *)
Definition is_breaking (commit : string) : bool :=
  any_match breaking_patterns commit
  || contains "BREAKING CHANGE" (upper commit).

(** The header [update_changelog] looks for. *)
Definition header (new_version : string) : string :=
  "## [" ++ new_version ++ "]".



(** The stronger of two answers of [analyze_commits]. *)
Definition stronger (a b : string) : string :=
  if String.eqb a "major" || String.eqb b "major" then "major"
  else if String.eqb a "minor" || String.eqb b "minor" then "minor"
  else "none".

(** [is_conventional_commit] accepts the message of the commit. *)
Definition accepted (c : Commit) : bool :=
  fst (is_conventional_commit (message c)).

End Wording.

(* ================================================================= *)
(** ** Sample runs *)

Module Samples.
Import PyStr Proc BumpVersion.

(** A changelog whose separator is followed by a line of text. *)
Definition changelog : string :=
  "# Changelog" ++ nl ++ "---" ++ nl ++ "Intro" ++ nl ++ "## [3.7] - old".

Definition files : FS :=
  fun path =>
    if String.eqb path "VERSION" then Some ("3.7" ++ nl)
    else if String.eqb path "CHANGELOG.md" then Some changelog
    else if String.eqb path "/repo/tools/version_sync.py" then Some "pass"
    else None.

Definition start : state := mkState files [].

Definition no_git : Git := mkGit 128 "" (fun _ => None) None.

(** A synchronisation script that fails and touches nothing. *)
Definition sync_fails (_ : string) (fs : FS) : sync_result * FS :=
  (SyncFailed "boom", fs).

Definition world : World := mkWorld no_git "2024-05-01" "/repo" sync_fails.

Definition major_args : Args :=
  mkArgs ChooseMajor None false "VERSION" "CHANGELOG.md".

Definition auto_args : Args :=
  mkArgs Auto None false "VERSION" "CHANGELOG.md".



(** A synchronisation script that succeeds and touches nothing. *)
Definition sync_ok (_ : string) (fs : FS) : sync_result * FS :=
  (SyncOk "done", fs).

Definition good_world : World := mkWorld no_git "2024-05-01" "/repo" sync_ok.

Definition manual_ok_args : Args :=
  mkArgs Auto (Some "3.9") false "VERSION" "CHANGELOG.md".

(** A pull request of two commits, the second one not conventional. *)
Definition pr_world : ValidateCommits.PrWorld :=
  ValidateCommits.mkPrWorld None
    (fun ref => if String.eqb ref "origin/main" then Some ("abc" ++ nl)
                else None)
    (fun range =>
       if String.eqb range "abc..HEAD"
       then Some ("0123456789|||feat: x" ++ nl ++ "aaaa|||bad msg")
       else None).

(** A repository in which [git] answers nothing. *)
Definition pr_no_git : ValidateCommits.PrWorld :=
  ValidateCommits.mkPrWorld None (fun _ => None) (fun _ => None).

End Samples.

(* ================================================================= *)
(** ** Facts about strings *)

Section StringFacts.
Import PyStr.

Lemma sapp_nil_r (s : string) : s ++ "" = s.
Proof. induction s; simpl; congruence. Qed.

Lemma sapp_assoc (a b c : string) : (a ++ b) ++ c = a ++ b ++ c.
Proof. induction a; simpl; congruence. Qed.

Lemma sapp_eq_nil (a b : string) : a ++ b = "" -> a = "" /\ b = "".
Proof. destruct a; simpl; [auto | discriminate]. Qed.

Lemma sapp_eq_cons (a b : string) (c : ascii) (s : string) :
  a ++ b = String c s ->
  (a = "" /\ b = String c s) \/ (exists a', a = String c a' /\ s = a' ++ b).
Proof.
  destruct a as [|x a']; simpl; intros H.
  - left; auto.
  - right; injection H as -> <-. eauto.
Qed.

Lemma smap_app (f : ascii -> ascii) (a b : string) :
  smap f (a ++ b) = smap f a ++ smap f b.
Proof. induction a; simpl; congruence. Qed.

Lemma smap_app_inv (f : ascii -> ascii) (s x y : string) :
  smap f s = x ++ y ->
  exists a b, s = a ++ b /\ smap f a = x /\ smap f b = y.
Proof.
  revert s; induction x as [|c x IH]; simpl; intros s H.
  - exists "", s; auto.
  - destruct s as [|d s]; simpl in H; [discriminate|].
    injection H as Hc Hs. destruct (IH _ Hs) as (a & b & -> & <- & <-).
    exists (String d a), b; simpl; rewrite Hc; auto.
Qed.

Lemma sall_app (p : ascii -> bool) (a b : string) :
  sall p (a ++ b) = sall p a && sall p b.
Proof.
  induction a; simpl; [reflexivity|]. rewrite IHa, andb_assoc; reflexivity.
Qed.

Lemma sall_impl (p q : ascii -> bool) (s : string) :
  (forall c, p c = true -> q c = true) -> sall p s = true -> sall q s = true.
Proof.
  intros Hpq; induction s; simpl; [auto|].
  rewrite !andb_true_iff; intros [? ?]; auto.
Qed.

Lemma startswith_spec (p s : string) :
  startswith p s = true <-> exists r, s = p ++ r.
Proof.
  revert s; induction p as [|a p IH]; intros s; simpl.
  - split; eauto.
  - destruct s as [|b s].
    + split; [discriminate | intros [r Hr]; discriminate].
    + rewrite andb_true_iff, Ascii.eqb_eq, IH. split.
      * intros [-> [r ->]]; eauto.
      * intros [r Hr]; injection Hr as -> ->; eauto.
Qed.

Lemma contains_spec (needle hay : string) :
  contains needle hay = true <-> exists a b, hay = a ++ needle ++ b.
Proof.
  induction hay as [|c h IH]; simpl.
  - rewrite orb_false_r, startswith_spec. split.
    + intros [r ->]. exists "", r; reflexivity.
    + intros (a & b & H). symmetry in H.
      apply sapp_eq_nil in H as [-> H]. exists b; auto.
  - rewrite orb_true_iff, startswith_spec, IH. split.
    + intros [[r ->] | (a & b & ->)].
      * exists "", r; reflexivity.
      * exists (String c a), b; reflexivity.
    + intros (a & b & H). destruct a as [|x a]; simpl in H.
      * left; eauto.
      * right; injection H as _ ->; eauto.
Qed.

(** Stripping text that neither begins nor ends with white space. *)
Lemma rstrip_tail (b w : string) :
  sall (fun c => negb (isspace c)) b = true ->
  sall isspace w = true ->
  rstrip (b ++ w) = b.
Proof.
  intros Hb Hw. induction b as [|c b IH]; simpl in *.
  - induction w as [|d w IHw]; simpl in *; [reflexivity|].
    apply andb_true_iff in Hw as [Hd Hw]. rewrite (IHw Hw), Hd; reflexivity.
  - apply andb_true_iff in Hb as [Hc Hb]. rewrite (IH Hb).
    destruct b; [|reflexivity].
    destruct (isspace c); [discriminate | reflexivity].
Qed.

Lemma lstrip_head (c : ascii) (s : string) :
  isspace c = false -> lstrip (String c s) = String c s.
Proof. intros H; simpl; rewrite H; reflexivity. Qed.

Lemma strip_tail (b w : string) :
  b <> "" ->
  sall (fun c => negb (isspace c)) b = true ->
  sall isspace w = true ->
  strip (b ++ w) = b.
Proof.
  intros Hne Hb Hw. unfold strip. destruct b as [|c b]; [congruence|].
  assert (Hc : isspace c = false).
  { simpl in Hb. apply andb_true_iff in Hb as [Hc _].
    now apply negb_true_iff in Hc. }
  change (String c b ++ w) with (String c (b ++ w)).
  rewrite (lstrip_head _ _ Hc).
  change (String c (b ++ w)) with (String c b ++ w).
  now apply rstrip_tail.
Qed.

(** Splitting. *)
Lemma split_no_sep (sep : ascii) (s : string) :
  sall (fun c => negb (Ascii.eqb c sep)) s = true -> split sep s = [s].
Proof.
  induction s as [|c s IH]; simpl; [reflexivity|].
  intros H; apply andb_true_iff in H as [Hc Hs].
  apply negb_true_iff in Hc. rewrite Hc, (IH Hs); reflexivity.
Qed.

Lemma split_app_sep (sep : ascii) (a b : string) :
  sall (fun c => negb (Ascii.eqb c sep)) a = true ->
  split sep (a ++ String sep b) = a :: split sep b.
Proof.
  induction a as [|c a IH]; simpl.
  - intros _. rewrite Ascii.eqb_refl; reflexivity.
  - intros H; apply andb_true_iff in H as [Hc Ha].
    apply negb_true_iff in Hc. rewrite Hc, (IH Ha); reflexivity.
Qed.

(** Joining. *)
Lemma join_middle (sep e : string) (xs ys : list string) :
  exists pre post, join sep (xs ++ e :: ys)%list = pre ++ e ++ post.
Proof.
  unfold join. induction xs as [|x xs IH]; simpl.
  - destruct ys as [|y ys].
    + exists "", "". now rewrite sapp_nil_r.
    + exists "", (sep ++ String.concat sep (y :: ys)). reflexivity.
  - destruct IH as (pre & post & IH).
    destruct (xs ++ e :: ys)%list eqn:E.
    + destruct xs; discriminate.
    + rewrite IH. exists (x ++ sep ++ pre), post. now rewrite !sapp_assoc.
Qed.

End StringFacts.

(* ================================================================= *)
(** ** Correctness of matching by derivatives *)

Section RegexFacts.
Import PyStr Re.

Lemma lang_void_iff (s : string) : lang Void s <-> False.
Proof. split; [intros H; inversion H | tauto]. Qed.

Lemma lang_eps_iff (s : string) : lang Eps s <-> s = "".
Proof. split; [intros H; now inversion H | intros ->; constructor]. Qed.

Lemma lang_class_iff (p : ascii -> bool) (s : string) :
  lang (Class p) s <-> exists c, s = String c "" /\ p c = true.
Proof.
  split.
  - intros H; inversion H; subst; eauto.
  - intros (c & -> & H); now constructor.
Qed.

Lemma lang_seq_iff (a b : regex) (s : string) :
  lang (Seq a b) s <-> exists u v, s = u ++ v /\ lang a u /\ lang b v.
Proof.
  split.
  - intros H; inversion H; subst; eauto.
  - intros (u & v & -> & Hu & Hv); now constructor.
Qed.

Lemma lang_alt_iff (a b : regex) (s : string) :
  lang (Alt a b) s <-> lang a s \/ lang b s.
Proof.
  split.
  - intros H; inversion H; subst; auto.
  - intros [H | H]; [now apply L_alt_l | now apply L_alt_r].
Qed.

Lemma lang_opt_iff (a : regex) (s : string) :
  lang (Opt a) s <-> lang a s \/ s = "".
Proof. unfold Opt. now rewrite lang_alt_iff, lang_eps_iff. Qed.

Lemma nullable_spec (r : regex) : nullable r = true <-> lang r "".
Proof.
  induction r; simpl.
  - rewrite lang_void_iff; split; [discriminate | tauto].
  - rewrite lang_eps_iff; tauto.
  - rewrite lang_class_iff; split; [discriminate|].
    intros (c & H & _); discriminate.
  - rewrite andb_true_iff, IHr1, IHr2, lang_seq_iff. split.
    + intros [? ?]. exists "", ""; auto.
    + intros (u & v & H & ? & ?). symmetry in H.
      apply sapp_eq_nil in H as [-> ->]; auto.
  - rewrite orb_true_iff, IHr1, IHr2, lang_alt_iff; tauto.
  - split; [intros _; constructor | reflexivity].
Qed.

(** A non-empty word of [Star a] begins with a non-empty word of [a]. *)
Lemma lang_star_cons (a : regex) (c : ascii) (s : string) :
  lang (Star a) (String c s) ->
  exists u v, s = u ++ v /\ lang a (String c u) /\ lang (Star a) v.
Proof.
  intros H. remember (Star a) as r eqn:Er.
  remember (String c s) as w eqn:Ew. revert s Ew.
  induction H; intros s Ew; try discriminate.
  injection Er as ->.
  apply sapp_eq_cons in Ew as [[-> ->] | (u' & -> & ->)].
  - now apply IHlang2.
  - eauto.
Qed.

Lemma deriv_spec (r : regex) (c : ascii) (s : string) :
  lang (deriv c r) s <-> lang r (String c s).
Proof.
  revert s; induction r; intros s; simpl.
  - rewrite !lang_void_iff; tauto.
  - rewrite lang_void_iff, lang_eps_iff; split; [tauto | discriminate].
  - rewrite lang_class_iff. destruct (b c) eqn:E.
    + rewrite lang_eps_iff. split.
      * intros ->; eauto.
      * intros (d & H & _); now injection H.
    + rewrite lang_void_iff. split; [tauto|].
      intros (d & H & Hd). injection H as -> _. congruence.
  - assert (Hseq : lang (Seq (deriv c r1) r2) s <->
                   exists u v, s = u ++ v /\ lang r1 (String c u) /\ lang r2 v).
    { rewrite lang_seq_iff. split; intros (u & v & ? & ? & ?);
        exists u, v; repeat split; auto; now apply IHr1. }
    rewrite (lang_seq_iff r1 r2).
    destruct (nullable r1) eqn:N.
    + rewrite lang_alt_iff, Hseq, IHr2. split.
      * intros [(u & v & -> & ? & ?) | H].
        -- exists (String c u), v; auto.
        -- exists "", (String c s). repeat split; auto.
           now apply nullable_spec.
      * intros (u & v & H & Hu & Hv). symmetry in H.
        apply sapp_eq_cons in H as [[-> ->] | (u' & -> & ->)];
          [now right | left; eauto].
    + rewrite Hseq. split.
      * intros (u & v & -> & ? & ?). exists (String c u), v; auto.
      * intros (u & v & H & Hu & Hv). symmetry in H.
        apply sapp_eq_cons in H as [[-> ->] | (u' & -> & ->)];
          [apply nullable_spec in Hu; congruence | eauto].
  - rewrite !lang_alt_iff, IHr1, IHr2; tauto.
  - rewrite lang_seq_iff. split.
    + intros (u & v & -> & Hu & Hv). apply IHr in Hu.
      change (String c (u ++ v)) with (String c u ++ v). now constructor.
    + intros H. apply lang_star_cons in H as (u & v & -> & Hu & Hv).
      exists u, v; repeat split; auto. now apply IHr.
Qed.

(** [re.match]: a prefix of the subject is in the language. *)
Lemma rmatch_spec (r : regex) (s : string) :
  rmatch r s = true <-> exists p q, s = p ++ q /\ lang r p.
Proof.
  revert r; induction s as [|c s IH]; intros r; simpl.
  - rewrite orb_false_r, nullable_spec. split.
    + intros H; exists "", ""; auto.
    + intros (p & q & H & Hp). symmetry in H.
      apply sapp_eq_nil in H as [-> _]; auto.
  - rewrite orb_true_iff, nullable_spec, IH. split.
    + intros [H | (p & q & -> & H)].
      * exists "", (String c s); auto.
      * exists (String c p), q. split; [reflexivity | now apply deriv_spec].
    + intros (p & q & H & Hp). symmetry in H.
      apply sapp_eq_cons in H as [[-> ->] | (p' & -> & ->)]; auto.
      right. exists p', q. split; [reflexivity | now apply deriv_spec].
Qed.

(** [re.match] of a pattern that ends in [$]. *)
Lemma rmatch_dollar_spec (r : regex) (s : string) :
  rmatch_dollar r s = true <->
  exists p q, s = p ++ q /\ lang r p /\ (q = "" \/ q = String LF "").
Proof.
  revert r; induction s as [|c s IH]; intros r; simpl.
  - rewrite orb_false_r, andb_true_r, nullable_spec. split.
    + intros H; exists "", ""; auto.
    + intros (p & q & H & Hp & _). symmetry in H.
      apply sapp_eq_nil in H as [-> _]; auto.
  - rewrite orb_true_iff, andb_true_iff, nullable_spec, IH.
    assert (E : (if Ascii.eqb c LF then String.eqb s "" else false) = true
                <-> String c s = String LF "").
    { destruct (Ascii.eqb_spec c LF) as [-> | Hc].
      - rewrite String.eqb_eq. split; [intros ->; reflexivity|].
        now intros [= ->].
      - split; [discriminate | intros [= ? ?]; contradiction]. }
    rewrite E. split.
    + intros [[H Es] | (p & q & -> & H & Hq)].
      * exists "", (String c s). rewrite Es; auto.
      * exists (String c p), q.
        repeat split; auto. now apply deriv_spec.
    + intros (p & q & H & Hp & Hq). symmetry in H.
      apply sapp_eq_cons in H as [[-> ->] | (p' & -> & ->)].
      * left. destruct Hq as [Hq | Hq]; [discriminate | auto].
      * right. exists p', q. repeat split; auto. now apply deriv_spec.
Qed.

End RegexFacts.

(* ================================================================= *)
(** ** Case folding and the languages of the patterns *)

Ltac each_char c := destruct c as [[] [] [] [] [] [] [] []].

Section PatternFacts.
Import PyStr Re BumpVersion ValidateCommits Wording.

Lemma lower_upper_char (c : ascii) :
  lower_char (upper_char c) = lower_char c.
Proof. each_char c; reflexivity. Qed.

Lemma upper_lower_char (c : ascii) :
  upper_char (lower_char c) = upper_char c.
Proof. each_char c; reflexivity. Qed.

Lemma lower_caseless (x c : ascii) :
  caseless c = true -> lower_char x = lower_char c -> x = c.
Proof.
  intros Hc H.
  assert (Ec : lower_char c = c).
  { unfold caseless in Hc. apply andb_true_iff in Hc as [_ Hu].
    unfold lower_char. now destruct (is_upper c). }
  rewrite Ec in H. subst c. revert Hc.
  each_char x; vm_compute; intros; congruence.
Qed.

Lemma smap_smap (f g : ascii -> ascii) (s : string) :
  smap f (smap g s) = smap (fun c => f (g c)) s.
Proof. induction s; simpl; congruence. Qed.

Lemma smap_ext (f g : ascii -> ascii) (s : string) :
  (forall c, f c = g c) -> smap f s = smap g s.
Proof. intros E; induction s; simpl; congruence. Qed.

Lemma lower_upper (s : string) :
  smap lower_char (upper s) = smap lower_char s.
Proof.
  unfold upper. rewrite smap_smap. apply smap_ext, lower_upper_char.
Qed.

Lemma upper_lower (s : string) : upper (smap lower_char s) = upper s.
Proof.
  unfold upper. rewrite smap_smap. apply smap_ext, upper_lower_char.
Qed.

Lemma ci_eq_refl (s : string) : ci_eq s s.
Proof. reflexivity. Qed.

Lemma ci_eq_upper (m w : string) : ci_eq m w <-> upper m = upper w.
Proof.
  unfold ci_eq. split; intros H.
  - now rewrite <- (upper_lower m), H, upper_lower.
  - now rewrite <- (lower_upper m), H, lower_upper.
Qed.

Lemma ci_eq_caseless (s w : string) :
  sall caseless w = true -> ci_eq s w -> s = w.
Proof.
  unfold ci_eq. revert s; induction w as [|c w IH]; intros s Hw H.
  - destruct s; [reflexivity | discriminate].
  - destruct s as [|x s]; [discriminate|]. simpl in *.
    apply andb_true_iff in Hw as [Hc Hw]. injection H as Hx Hs.
    f_equal; [now apply lower_caseless | now apply IH].
Qed.

(** Search in the upper-cased text is search without regard to case. *)
Lemma contains_upper (w s : string) :
  upper w = w ->
  contains w (upper s) = true <-> contains_ci w s.
Proof.
  intros Hw. rewrite contains_spec. unfold contains_ci. split.
  - intros (a & b & H). unfold upper in H.
    apply smap_app_inv in H as (a' & r & -> & Ha & H).
    apply smap_app_inv in H as (m & b' & -> & Hm & Hb).
    exists a', m, b'. split; [reflexivity|].
    apply ci_eq_upper. unfold upper at 1. now rewrite Hm.
  - intros (a & m & b & -> & Hm). apply ci_eq_upper in Hm.
    exists (upper a), (upper b). unfold upper in *.
    now rewrite !smap_app, Hm, Hw.
Qed.

(** Languages of the building blocks. *)
Lemma lang_word_ci (w s : string) : lang (word true w) s <-> ci_eq s w.
Proof.
  unfold ci_eq. revert s; induction w as [|c w IH]; intros s; simpl.
  - rewrite lang_eps_iff.
    destruct s; simpl; split; intros H; reflexivity || discriminate.
  - rewrite lang_seq_iff. unfold chr. split.
    + intros (u & v & -> & Hu & Hv).
      apply lang_class_iff in Hu as (x & -> & Hx).
      apply Ascii.eqb_eq in Hx. apply IH in Hv. simpl. congruence.
    + destruct s as [|x s]; [discriminate|]. simpl. intros [= Hx Hs].
      exists (String x ""), s. repeat split.
      * apply lang_class_iff. exists x. split; [reflexivity|].
        now apply Ascii.eqb_eq.
      * now apply IH.
Qed.

Lemma lang_word_caseless (w s : string) :
  sall caseless w = true -> lang (word true w) s <-> s = w.
Proof.
  intros Hw. rewrite lang_word_ci. split.
  - now apply ci_eq_caseless.
  - intros ->; apply ci_eq_refl.
Qed.

Lemma lang_chr_caseless (c : ascii) (s : string) :
  caseless c = true -> lang (chr true c) s <-> s = String c "".
Proof.
  intros Hc. unfold chr. rewrite lang_class_iff. split.
  - intros (x & -> & Hx). apply Ascii.eqb_eq in Hx.
    f_equal. now apply lower_caseless.
  - intros ->. exists c. split; [reflexivity | apply Ascii.eqb_refl].
Qed.

Lemma lang_chr_exact (c : ascii) (s : string) :
  lang (chr false c) s <-> s = String c "".
Proof.
  unfold chr. rewrite lang_class_iff. split.
  - intros (x & -> & Hx). apply Ascii.eqb_eq in Hx. now subst.
  - intros ->. exists c. split; [reflexivity | apply Ascii.eqb_refl].
Qed.

Lemma lang_star_class (p : ascii -> bool) (s : string) :
  lang (Star (Class p)) s <-> sall p s = true.
Proof.
  split.
  - intros H. remember (Star (Class p)) as r eqn:Er.
    induction H; try discriminate; [reflexivity|].
    injection Er as ->. apply lang_class_iff in H as (c & -> & Hc).
    simpl. rewrite Hc. now apply IHlang2.
  - induction s as [|c s IH]; simpl; intros H; [constructor|].
    apply andb_true_iff in H as [Hc Hs].
    change (String c s) with (String c "" ++ s).
    constructor; [now constructor | auto].
Qed.

Lemma lang_plus_class (p : ascii -> bool) (s : string) :
  lang (Plus (Class p)) s <-> s <> "" /\ sall p s = true.
Proof.
  unfold Plus. rewrite lang_seq_iff. split.
  - intros (u & v & -> & Hu & Hv).
    apply lang_class_iff in Hu as (c & -> & Hc).
    apply lang_star_class in Hv. simpl. rewrite Hc, Hv.
    split; [discriminate | reflexivity].
  - intros [Hne H]. destruct s as [|c s]; [congruence|].
    simpl in H. apply andb_true_iff in H as [Hc Hs].
    exists (String c ""), s. repeat split.
    + now constructor.
    + now apply lang_star_class.
Qed.

Lemma lang_scope_group (s : string) :
  lang scope_group s <-> exists t, s = "(" ++ t ++ ")" /\ t <> "" /\ one_line t.
Proof.
  unfold scope_group. rewrite lang_seq_iff. split.
  - intros (u & v & -> & Hu & Hv).
    apply lang_chr_caseless in Hu; [subst u | reflexivity].
    apply lang_seq_iff in Hv as (t & z & -> & Ht & Hz).
    apply lang_chr_caseless in Hz; [subst z | reflexivity].
    apply lang_plus_class in Ht as [Hne Ht]. exists t; auto.
  - intros (t & -> & Hne & Ht). exists "(", (t ++ ")"). repeat split.
    + now apply lang_chr_caseless.
    + apply lang_seq_iff. exists t, ")". repeat split.
      * now apply lang_plus_class.
      * now apply lang_chr_caseless.
Qed.

Lemma lang_opt_scope_group (s : string) :
  lang (Opt scope_group) s <-> paren_scope one_line s.
Proof.
  rewrite lang_opt_iff, lang_scope_group. unfold paren_scope. tauto.
Qed.

(** The patterns of [analyze_commits]. *)
Lemma match_word_ci (w c : string) :
  rmatch (word true w) c = true <-> begins_ci w c.
Proof.
  rewrite rmatch_spec. unfold begins_ci.
  split; intros (p & r & -> & H); exists p, r;
    (split; [reflexivity | now apply lang_word_ci]).
Qed.

Lemma match_bang (ty c : string) :
  rmatch (Seq (word true ty) (Seq (Star dot) (word true "!:"))) c = true <->
  exists t mid rest,
    c = t ++ mid ++ "!:" ++ rest /\ ci_eq t ty /\ one_line mid.
Proof.
  rewrite rmatch_spec. split.
  - intros (p & r & -> & H).
    apply lang_seq_iff in H as (t & v & -> & Ht & Hv).
    apply lang_seq_iff in Hv as (mid & b & -> & Hmid & Hb).
    apply lang_word_ci in Ht. apply lang_star_class in Hmid.
    apply lang_word_caseless in Hb; [subst b | reflexivity].
    exists t, mid, r. rewrite !sapp_assoc. auto.
  - intros (t & mid & rest & -> & Ht & Hmid).
    exists (t ++ mid ++ "!:"), rest. split; [now rewrite !sapp_assoc|].
    apply lang_seq_iff. exists t, (mid ++ "!:"). repeat split.
    + now apply lang_word_ci.
    + apply lang_seq_iff. exists mid, "!:". repeat split.
      * now apply lang_star_class.
      * now apply lang_word_caseless.
Qed.

Lemma match_header (ty c : string) :
  rmatch (Seq (word true ty) (Seq (Opt scope_group) (chr true ":"))) c = true
  <-> exists t sc rest,
        c = t ++ sc ++ ":" ++ rest /\ ci_eq t ty /\ paren_scope one_line sc.
Proof.
  rewrite rmatch_spec. split.
  - intros (p & r & -> & H).
    apply lang_seq_iff in H as (t & v & -> & Ht & Hv).
    apply lang_seq_iff in Hv as (sc & b & -> & Hsc & Hb).
    apply lang_word_ci in Ht. apply lang_opt_scope_group in Hsc.
    apply lang_chr_caseless in Hb; [subst b | reflexivity].
    exists t, sc, r. rewrite !sapp_assoc. auto.
  - intros (t & sc & rest & -> & Ht & Hsc).
    exists (t ++ sc ++ ":"), rest. split; [now rewrite !sapp_assoc|].
    apply lang_seq_iff. exists t, (sc ++ ":"). repeat split.
    + now apply lang_word_ci.
    + apply lang_seq_iff. exists sc, ":". repeat split.
      * now apply lang_opt_scope_group.
      * now apply lang_chr_caseless.
Qed.

Lemma is_breaking_spec (c : string) :
  is_breaking c = true <-> breaking_marker c.
Proof.
  unfold is_breaking, any_match, breaking_patterns, breaking_marker,
    bang_colon_after_type, feat_or_fix. cbn [existsb].
  rewrite orb_false_r, !orb_true_iff, match_word_ci, !match_bang.
  rewrite (contains_upper "BREAKING CHANGE" c eq_refl).
  split.
  - intros [[H | [(t & m & r & ? & ? & ?) | (t & m & r & ? & ? & ?)]] | H];
      eauto 10.
  - intros [H | [(t & m & r & ? & [? | ?] & ?) | H]]; eauto 10.
Qed.

Lemma is_feature_fix_spec (c : string) :
  any_match feature_fix_patterns c = true <-> feature_fix_header c.
Proof.
  unfold any_match, feature_fix_patterns, feature_fix_header, feat_or_fix.
  cbn [existsb]. rewrite orb_false_r, orb_true_iff, !match_header.
  split.
  - intros [(t & m & r & ? & ? & ?) | (t & m & r & ? & ? & ?)]; eauto 10.
  - intros (t & m & r & ? & [? | ?] & ?); eauto 10.
Qed.

End PatternFacts.

(* ================================================================= *)
(** ** The commit classifier *)

Section Classifier.
Import PyStr Re BumpVersion Wording.

(** One turn of the loop, with the two breaking tests taken together. *)
Lemma scan_commits_cons (c : string) (rest : list string) (st : scan) :
  scan_commits (c :: rest) st =
  if is_breaking c
  then mkScan true (has_feature_or_fix st) (S (examined st))
  else scan_commits rest
         (mkScan (has_breaking st)
                 (has_feature_or_fix st || any_match feature_fix_patterns c)
                 (S (examined st))).
Proof.
  unfold is_breaking. cbn [scan_commits].
  destruct (any_match breaking_patterns c); [reflexivity|].
  destruct (contains "BREAKING CHANGE" (upper c)); [reflexivity|].
  cbn [orb]. destruct (any_match feature_fix_patterns c).
  - now rewrite orb_true_r.
  - now rewrite orb_false_r.
Qed.

Lemma scan_has_breaking (l : list string) (st : scan) :
  has_breaking (scan_commits l st) = has_breaking st || existsb is_breaking l.
Proof.
  revert st; induction l as [|c l IH]; intros st.
  - simpl. now rewrite orb_false_r.
  - rewrite scan_commits_cons. cbn [existsb]. destruct (is_breaking c).
    + cbn. now rewrite orb_true_r.
    + rewrite IH. reflexivity.
Qed.

Lemma scan_has_feature (l : list string) (st : scan) :
  existsb is_breaking l = false ->
  has_feature_or_fix (scan_commits l st) =
  has_feature_or_fix st || existsb (any_match feature_fix_patterns) l.
Proof.
  revert st; induction l as [|c l IH]; intros st H.
  - simpl. now rewrite orb_false_r.
  - rewrite scan_commits_cons. cbn [existsb] in *.
    apply orb_false_iff in H as [Hc Hl]. rewrite Hc, (IH _ Hl).
    cbn [has_feature_or_fix]. now rewrite orb_assoc.
Qed.


(** The answer of [analyze_commits] in closed form. *)
Lemma analyze_commits_eq (l : list string) :
  analyze_commits l =
  if existsb is_breaking l then "major"
  else if existsb (any_match feature_fix_patterns) l then "minor"
  else "none".
Proof.
  unfold analyze_commits. rewrite scan_has_breaking. cbn [orb scan_start has_breaking].
  destruct (existsb is_breaking l) eqn:E; [reflexivity|].
  now rewrite (scan_has_feature _ _ E).
Qed.











End Classifier.

(* ================================================================= *)
(** ** Version numbers: printing, reading, bumping *)

Section Versions.
Import PyStr Re BumpVersion Wording.

Lemma digit_facts (c : ascii) :
  is_digit c = true ->
  isspace c = false /\ Ascii.eqb c "." = false /\ Ascii.eqb c "_" = false
  /\ Ascii.eqb c "-" = false /\ Ascii.eqb c "+" = false
  /\ exists k, forall d, uint_of_char c (Some d) = Some (k d).
Proof.
  each_char c; intros H; try (vm_compute in H; discriminate H);
    repeat split; eexists; intros d; reflexivity.
Qed.

Lemma sign_split_digit (c : ascii) (s : string) :
  is_digit c = true -> sign_split (String c s) = (false, String c s).
Proof.
  each_char c; intros H; try (vm_compute in H; discriminate H); reflexivity.
Qed.

Lemma digits_not_space (s : string) :
  sall is_digit s = true -> sall (fun c => negb (isspace c)) s = true.
Proof.
  apply sall_impl. intros c H.
  destruct (digit_facts c H) as (-> & _). reflexivity.
Qed.

Lemma digits_no_dot (s : string) :
  sall is_digit s = true ->
  sall (fun c => negb (Ascii.eqb c ".")) s = true.
Proof.
  apply sall_impl. intros c H.
  destruct (digit_facts c H) as (_ & -> & _). reflexivity.
Qed.

Lemma digits_keep (s : string) :
  sall is_digit s = true -> drop_underscores true s = Some s.
Proof.
  induction s as [|c s IH]; simpl; [reflexivity|].
  intros H. apply andb_true_iff in H as [Hc Hs].
  destruct (digit_facts c Hc) as (_ & _ & -> & _).
  now rewrite (IH Hs).
Qed.

Lemma digits_read (s : string) :
  sall is_digit s = true -> exists d, NilEmpty.uint_of_string s = Some d.
Proof.
  induction s as [|c s IH]; simpl; [eauto|].
  intros H. apply andb_true_iff in H as [Hc Hs].
  destruct (IH Hs) as [d ->].
  destruct (digit_facts c Hc) as (_ & _ & _ & _ & _ & k & Hk).
  rewrite Hk. eauto.
Qed.

(** [int] on digits that may be followed by white space. *)
Lemma int_digits (b w : string) :
  b <> "" -> sall is_digit b = true -> sall isspace w = true ->
  exists d, int (b ++ w) = Some (Z.of_uint d).
Proof.
  intros Hne Hb Hw. unfold int.
  rewrite (strip_tail b w Hne (digits_not_space _ Hb) Hw).
  destruct b as [|c b]; [congruence|].
  simpl in Hb. apply andb_true_iff in Hb as [Hc Hb].
  destruct (digit_facts c Hc) as (_ & _ & Hu & Hm & Hp & _).
  rewrite (sign_split_digit c b Hc). cbn [drop_underscores]. rewrite Hu, (digits_keep _ Hb).
  cbn [option_map].
  destruct (digits_read (String c b)) as [d Hd].
  { simpl. now rewrite Hc, Hb. }
  rewrite Hd. eauto.
Qed.

Lemma of_uint_nonneg (d : uint) : (0 <= Z.of_uint d)%Z.
Proof. unfold Z.of_uint. apply N2Z.is_nonneg. Qed.

(** Printed numbers. *)
Lemma uint_digits (d : uint) :
  sall is_digit (NilEmpty.string_of_uint d) = true.
Proof. induction d; simpl; auto. Qed.

Lemma uint_nonempty (d : uint) :
  d <> Nil -> NilEmpty.string_of_uint d <> "".
Proof. destruct d; simpl; congruence. Qed.

Lemma str_of_int_nonneg (n : Z) :
  (0 <= n)%Z ->
  exists d, str_of_int n = NilEmpty.string_of_uint d
            /\ d <> Nil /\ Z.of_uint d = n.
Proof.
  intros Hn. unfold str_of_int. destruct n as [|p|p]; [| |lia].
  - exists (D0 Nil). repeat split. discriminate.
  - exists (Pos.to_uint p). repeat split.
    + apply DecimalPos.Unsigned.to_uint_nonnil.
    + unfold Z.of_uint. now rewrite DecimalPos.Unsigned.of_to.
Qed.

Lemma str_of_int_digits (n : Z) :
  (0 <= n)%Z -> str_of_int n <> "" /\ sall is_digit (str_of_int n) = true.
Proof.
  intros Hn. destruct (str_of_int_nonneg n Hn) as (d & -> & Hd & _).
  split; [now apply uint_nonempty | apply uint_digits].
Qed.


(** The printed form has the shape the script checks for. *)
Lemma format_version_shape (major minor : Z) :
  (0 <= major)%Z -> (0 <= minor)%Z ->
  digits_dot_digits (format_version major minor).
Proof.
  intros Ha Hb. exists (str_of_int major), (str_of_int minor).
  destruct (str_of_int_digits _ Ha), (str_of_int_digits _ Hb). auto.
Qed.

Lemma split_version (a b : string) :
  sall is_digit a = true ->
  sall (fun c => negb (Ascii.eqb c ".")) b = true ->
  split "." (a ++ "." ++ b) = [a; b].
Proof.
  intros Ha Hb. change (a ++ "." ++ b) with (a ++ String "." b).
  now rewrite (split_app_sep _ _ _ (digits_no_dot _ Ha)), (split_no_sep _ _ Hb).
Qed.


(** The language of the version pattern. *)
Lemma lang_version_re (p : string) :
  lang version_re p <-> digits_dot_digits p.
Proof.
  unfold version_re, digits_dot_digits, digit. rewrite lang_seq_iff. split.
  - intros (a & v & -> & Ha & Hv).
    apply lang_seq_iff in Hv as (x & b & -> & Hx & Hb).
    apply lang_chr_exact in Hx; subst x.
    apply lang_plus_class in Ha as [? ?].
    apply lang_plus_class in Hb as [? ?].
    exists a, b; auto.
  - intros (a & b & -> & ? & ? & ? & ?). exists a, ("." ++ b).
    repeat split.
    + now apply lang_plus_class.
    + apply lang_seq_iff. exists ".", b. repeat split.
      * now apply lang_chr_exact.
      * now apply lang_plus_class.
Qed.

Lemma valid_version_spec (s : string) :
  valid_version s = true <->
  exists p q, s = p ++ q /\ digits_dot_digits p /\ (q = "" \/ q = nl).
Proof.
  unfold valid_version. rewrite rmatch_dollar_spec.
  split; intros (p & q & ? & ? & ?); exists p, q; repeat split; auto;
    now apply lang_version_re.
Qed.

Lemma shape_valid (s : string) :
  digits_dot_digits s -> valid_version s = true.
Proof.
  intros H. apply valid_version_spec. exists s, "".
  rewrite sapp_nil_r. auto.
Qed.

(** Reading a version the script accepts never fails and gives two
    non-negative numbers. *)
Lemma parse_valid_version (s : string) :
  valid_version s = true ->
  exists major minor,
    parse_version s = Some (major, minor) /\ (0 <= major)%Z /\ (0 <= minor)%Z.
Proof.
  intros H. apply valid_version_spec in H
    as (p & q & -> & (a & b & -> & Ha & Hb & Da & Db) & Hq).
  assert (Wq : sall isspace q = true) by (destruct Hq; subst; reflexivity).
  assert (Nq : sall (fun c => negb (Ascii.eqb c ".")) q = true)
    by (destruct Hq; subst; reflexivity).
  unfold parse_version. rewrite !sapp_assoc.
  rewrite (split_version a (b ++ q) Da).
  2:{ rewrite sall_app, (digits_no_dot _ Db), Nq. reflexivity. }
  cbn [List.map].
  destruct (int_digits a "" Ha Da eq_refl) as [da Ea].
  rewrite sapp_nil_r in Ea.
  destruct (int_digits b q Hb Db Wq) as [db Eb].
  rewrite Ea, Eb. exists (Z.of_uint da), (Z.of_uint db).
  repeat split; apply of_uint_nonneg.
Qed.





(** [bump_version] on an accepted version string. *)
Lemma bump_version_valid (s kind : string) :
  valid_version s = true ->
  exists r,
    bump_version s kind = Some r
    /\ valid_version r = true
    /\ (digits_dot_digits s -> digits_dot_digits r)
    /\ (kind <> "major" -> kind <> "minor" -> r = s).
Proof.
  intros Hs.
  destruct (parse_valid_version s Hs) as (major & minor & E & Ha & Hb).
  unfold bump_version. rewrite E.
  destruct (String.eqb_spec kind "major") as [-> | N1].
  - eexists; split; [reflexivity|].
    assert (D : digits_dot_digits (format_version (major + 1) 0))
      by (apply format_version_shape; lia).
    repeat split; [now apply shape_valid | auto | congruence].
  - destruct (String.eqb_spec kind "minor") as [-> | N2].
    + eexists; split; [reflexivity|].
      assert (D : digits_dot_digits (format_version major (minor + 1)))
        by (apply format_version_shape; lia).
      repeat split; [now apply shape_valid | auto | congruence].
    + exists s. repeat split; auto.
Qed.



End Versions.

(* ================================================================= *)
(** ** The commit message validator *)

Section Validator.
Import PyStr Re BumpVersion ValidateCommits Wording.

Lemma lang_alternatives (ws : list string) (s : string) :
  lang (alternatives ws) s <-> exists w, In w ws /\ ci_eq s w.
Proof.
  induction ws as [|w ws IH]; simpl.
  - rewrite lang_void_iff. split; [tauto | intros (w & [] & _)].
  - rewrite lang_alt_iff, lang_word_ci, IH. split.
    + intros [H | (x & Hx & H)]; eauto.
    + intros (x & [<- | Hx] & H); eauto.
Qed.

Lemma set_scope_char (x : ascii) :
  scope_char x || (true && (scope_char (lower_char x)
                            || scope_char (upper_char x)))
  = scope_letter x.
Proof. each_char x; reflexivity. Qed.

Lemma sall_ext (p q : ascii -> bool) (s : string) :
  (forall c, p c = q c) -> sall p s = sall q s.
Proof. intros E; induction s; simpl; [reflexivity|]. now rewrite E, IHs. Qed.

Lemma lang_scope (s : string) :
  lang (Opt (Seq (chr true "(")
                 (Seq (Plus (set true scope_char)) (chr true ")")))) s
  <-> paren_scope scope_text s.
Proof.
  unfold paren_scope, scope_text, set.
  rewrite lang_opt_iff, lang_seq_iff. split.
  - intros [(u & v & -> & Hu & Hv) | ->]; [right | now left].
    apply lang_chr_caseless in Hu; [subst u | reflexivity].
    apply lang_seq_iff in Hv as (t & z & -> & Ht & Hz).
    apply lang_chr_caseless in Hz; [subst z | reflexivity].
    apply lang_plus_class in Ht as [Hne Ht].
    rewrite (sall_ext _ _ _ set_scope_char) in Ht. exists t; auto.
  - intros [-> | (t & -> & Hne & Ht)]; [now right | left].
    exists "(", (t ++ ")"). repeat split.
    + now apply lang_chr_caseless.
    + apply lang_seq_iff. exists t, ")". repeat split.
      * apply lang_plus_class. split; [assumption|].
        now rewrite (sall_ext _ _ _ set_scope_char).
      * now apply lang_chr_caseless.
Qed.

Lemma lang_bang (s : string) :
  lang (Opt (chr true "!")) s <-> s = "" \/ s = "!".
Proof.
  rewrite lang_opt_iff, (lang_chr_caseless "!" s eq_refl). tauto.
Qed.

Lemma lang_subject (s : string) :
  lang (Seq (chr true ":") (Seq space (Plus dot))) s <->
  exists ws c u,
    s = ":" ++ String ws (String c u)
    /\ isspace ws = true /\ c <> LF /\ one_line u.
Proof.
  unfold space, dot, one_line, not_lf. rewrite lang_seq_iff. split.
  - intros (x & v & -> & Hx & Hv).
    apply lang_chr_caseless in Hx; [subst x | reflexivity].
    apply lang_seq_iff in Hv as (y & d & -> & Hy & Hd).
    apply lang_class_iff in Hy as (ws & -> & Hws).
    apply lang_plus_class in Hd as [Hne Hd].
    destruct d as [|c u]; [congruence|]. simpl in Hd.
    apply andb_true_iff in Hd as [Hc Hu].
    exists ws, c, u. repeat split; auto.
    intros ->. discriminate.
  - intros (ws & c & u & -> & Hws & Hc & Hu).
    exists ":", (String ws (String c u)). repeat split.
    + now apply lang_chr_caseless.
    + apply lang_seq_iff. exists (String ws ""), (String c u).
      repeat split.
      * now constructor.
      * apply lang_plus_class. split; [discriminate|].
        simpl. rewrite Hu, andb_true_r.
        apply negb_true_iff. now apply Ascii.eqb_neq.
Qed.

Lemma match_pattern (m : string) :
  rmatch pattern m = true <-> conventional_form m.
Proof.
  rewrite rmatch_spec. unfold pattern, conventional_form. split.
  - intros (p & q & -> & H).
    apply lang_seq_iff in H as (ty & v1 & -> & Hty & H).
    apply lang_seq_iff in H as (sc & v2 & -> & Hsc & H).
    apply lang_seq_iff in H as (bang & v3 & -> & Hbang & H).
    apply lang_alternatives in Hty. apply lang_scope in Hsc.
    apply lang_bang in Hbang.
    apply lang_subject in H as (ws & c & u & -> & Hws & Hc & _).
    exists ty, sc, bang, ws, c, (u ++ q).
    split; [now rewrite !sapp_assoc | auto].
  - intros (ty & sc & bang & ws & c & rest & -> & Hty & Hsc & Hb & Hws & Hc).
    exists (ty ++ sc ++ bang ++ ":" ++ String ws (String c "")), rest.
    split; [now rewrite !sapp_assoc|].
    apply lang_seq_iff. eexists _, _. split; [reflexivity|].
    split; [now apply lang_alternatives|].
    apply lang_seq_iff. eexists _, _. split; [reflexivity|].
    split; [now apply lang_scope|].
    apply lang_seq_iff. eexists _, _. split; [reflexivity|].
    split; [now apply lang_bang|].
    apply lang_subject. exists ws, c, "". repeat split; auto.
Qed.




End Validator.

(* ================================================================= *)
(** ** The changelog *)

Section Changelog.
Import PyStr Re Proc BumpVersion Wording.

Lemma update_changelog_eq (today new_version bump_type path : string)
    (st : state) :
  update_changelog today new_version bump_type path st =
  match fs st path with
  | None => (Done tt, st)
  | Some content =>
      if contains (header new_version) content then (Done tt, st)
      else match find_insert_index (split LF content) 0 with
           | Some (S k) =>
               write_text path
                 (join nl (list_insert (S k)
                             (new_entry new_version today bump_type)
                             (split LF content))) st
           | _ => (Done tt, st)
           end
  end.
Proof.
  unfold update_changelog, bind, read, ret, header. cbn beta iota.
  destruct (fs st path) as [content|]; [|reflexivity].
  destruct (contains _ content); [reflexivity|].
  destruct (find_insert_index _ 0) as [[|k]|]; reflexivity.
Qed.


Lemma new_entry_header (new_version today bump_type : string) :
  exists tail,
    new_entry new_version today bump_type = header new_version ++ tail.
Proof.
  unfold new_entry, header. eexists.
  rewrite !sapp_assoc. reflexivity.
Qed.

(** After an insertion the header of the new version is in the text. *)
Lemma inserted_contains_header
    (new_version today bump_type : string) (k : nat) (lines : list string) :
  contains (header new_version)
    (join nl (list_insert k (new_entry new_version today bump_type) lines))
  = true.
Proof.
  unfold list_insert.
  destruct (join_middle nl (new_entry new_version today bump_type)
              (firstn k lines) (skipn k lines)) as (pre & post & ->).
  destruct (new_entry_header new_version today bump_type) as (tail & ->).
  apply contains_spec. exists pre, (tail ++ post).
  now rewrite !sapp_assoc.
Qed.

(** [update_changelog] always returns and prints nothing. *)
Lemma update_changelog_done (today new_version bump_type path : string)
    (st : state) :
  exists st',
    update_changelog today new_version bump_type path st = (Done tt, st')
    /\ stdout st' = stdout st.
Proof.
  rewrite update_changelog_eq.
  destruct (fs st path) as [content|]; [|eauto].
  destruct (contains _ content); [eauto|].
  destruct (find_insert_index _ 0) as [[|k]|]; eauto.
  unfold write_text. eauto.
Qed.





(** C10.  When the changelog already holds the header of the new
    version, [update_changelog] leaves every file as it is; hence a
    second call with the same version and date changes nothing that the
    first call left. *)
Theorem update_changelog_idempotent
    (today new_version bump_type path : string) (st : state) :
  (forall content,
      fs st path = Some content ->
      contains ("## [" ++ new_version ++ "]") content = true ->
      update_changelog today new_version bump_type path st = (Done tt, st))
  /\ (forall r st1,
        update_changelog today new_version bump_type path st = (r, st1) ->
        update_changelog today new_version bump_type path st1
        = (Done tt, st1)).
Proof.
  split.
  - intros content Hc Hh.
    rewrite update_changelog_eq, Hc. unfold header. now rewrite Hh.
  - intros r st1. rewrite update_changelog_eq.
    destruct (fs st path) as [content|] eqn:Hc.
    + destruct (contains (header new_version) content) eqn:Hh.
      * intros [= <- <-]. now rewrite update_changelog_eq, Hc, Hh.
      * destruct (find_insert_index (split LF content) 0) as [[|k]|] eqn:Hf.
        -- intros [= <- <-]. now rewrite update_changelog_eq, Hc, Hh, Hf.
        -- unfold write_text. intros [= <- <-].
           rewrite update_changelog_eq. cbn [fs].
           rewrite String.eqb_refl.
           now rewrite inserted_contains_header.
        -- intros [= <- <-]. now rewrite update_changelog_eq, Hc, Hh, Hf.
    + intros [= <- <-]. now rewrite update_changelog_eq, Hc.
Qed.

Lemma update_changelog_idempotent_witness :
  update_changelog "2024-05-01" "3.7" "minor" "CHANGELOG.md" Samples.start
  = (Done tt, Samples.start)
  /\ update_changelog "2024-05-01" "4.0" "major" "CHANGELOG.md"
       (snd (update_changelog "2024-05-01" "4.0" "major" "CHANGELOG.md"
                              Samples.start))
     = (Done tt,
        snd (update_changelog "2024-05-01" "4.0" "major" "CHANGELOG.md"
                              Samples.start)).
Proof.
  split.
  - destruct (update_changelog_idempotent
                "2024-05-01" "3.7" "minor" "CHANGELOG.md" Samples.start)
      as [H _].
    apply (H Samples.changelog); reflexivity.
  - destruct (update_changelog_idempotent
                "2024-05-01" "4.0" "major" "CHANGELOG.md" Samples.start)
      as [_ H].
    apply (H (Done tt)). reflexivity.
Defined.

End Changelog.

(* ================================================================= *)
(** ** Runs of [main] *)

Section Main.
Import PyStr Re Proc BumpVersion Wording.

Lemma read_current_version_eq (path : string) (st : state) :
  read_current_version path st =
  match fs st path with
  | None => (Exit 1%Z, st)
  | Some text =>
      if valid_version (strip text) then (Done (strip text), st)
      else (Exit 1%Z, st)
  end.
Proof.
  unfold read_current_version, bind, read, sys_exit, ret.
  destruct (fs st path) as [text|]; [|reflexivity].
  destruct (valid_version (strip text)); reflexivity.
Qed.


(** The writes of [main]: both files are written before the
    synchronisation runs, and its failure undoes nothing. *)
Lemma make_changes_cases (w : World) (args : Args)
    (new_version bump_type : string) (st : state) :
  exists st1 st2,
    write_version new_version (arg_version_file args) st = (Done tt, st1)
    /\ update_changelog (today w) new_version bump_type
         (arg_changelog_file args) st1 = (Done tt, st2)
    /\ stdout st2 = stdout st
    /\ ((exists st3,
            make_changes w args new_version bump_type st = (Done tt, st3)
            /\ stdout st3 = stdout st)
        \/ (exists err fs',
               fs st2 (version_sync_script w) <> None
               /\ sync_run w (arg_version_file args) (fs st2)
                  = (SyncFailed err, fs')
               /\ make_changes w args new_version bump_type st
                  = (Exit 1%Z, mkState fs' (stdout st)))).
Proof.
  pose (st1 := mkState
                 (fun q => if String.eqb q (arg_version_file args)
                           then Some (new_version ++ nl) else fs st q)
                 (stdout st)).
  destruct (update_changelog_done (today w) new_version bump_type
              (arg_changelog_file args) st1) as (st2 & Hu & Hout).
  assert (E : make_changes w args new_version bump_type st
              = run_version_sync w (arg_version_file args) st2).
  { unfold make_changes, write_version, bind. cbn [write_text].
    fold st1. now rewrite Hu. }
  exists st1, st2. rewrite E.
  split; [reflexivity | split; [exact Hu | split; [exact Hout|]]].
  unfold run_version_sync, bind, read, ret.
  destruct (fs st2 (version_sync_script w)) eqn:Hs.
  - destruct (sync_run w (arg_version_file args) (fs st2))
      as [[out | err] fs'] eqn:Hr.
    + left. eexists. split; [reflexivity | exact Hout].
    + right. exists err, fs'. rewrite Hout.
      split; [congruence | split; reflexivity].
  - left. exists st2. split; [reflexivity | exact Hout].
Qed.




(** C6.  [analyze_commits] answers [none] on no commit and on the single
    empty commit; and when [git] reports no commit, or the single empty
    one, an automatic run stops before any bump: it prints the current
    version, ends with status 0 and leaves every file as it was. *)
Theorem no_commits_no_bump
    (w : World) (args : Args) (st : state) (text : string) :
  fs st (arg_version_file args) = Some text ->
  valid_version (strip text) = true ->
  arg_manual args = None \/ arg_manual args = Some "" ->
  arg_type args = Auto ->
  get_git_commits_since_last_tag (git w) = []
  \/ get_git_commits_since_last_tag (git w) = [""] ->
  analyze_commits [] = "none"
  /\ analyze_commits [""] = "none"
  /\ analyze_commits (get_git_commits_since_last_tag (git w)) = "none"
  /\ main w args st
     = (Exit 0%Z, mkState (fs st) (stdout st ++ [strip text])%list).
Proof.
  intros Hv Hvalid Hm Ht Hc.
  split; [reflexivity | split; [reflexivity | split]].
  - destruct Hc as [-> | ->]; reflexivity.
  - unfold main. unfold bind at 1.
    rewrite read_current_version_eq, Hv, Hvalid.
    unfold bind at 1. unfold choose_version.
    assert (N : no_commits (get_git_commits_since_last_tag (git w)) = true)
      by (destruct Hc as [-> | ->]; reflexivity).
    destruct Hm as [-> | ->]; rewrite Ht, N; reflexivity.
Qed.

Lemma no_commits_no_bump_witness :
  analyze_commits (get_git_commits_since_last_tag (git Samples.world))
  = "none"
  /\ main Samples.world Samples.auto_args Samples.start
     = (Exit 0%Z, mkState Samples.files ["3.7"]).
Proof.
  destruct (no_commits_no_bump Samples.world Samples.auto_args
              Samples.start ("3.7" ++ nl)) as (_ & _ & H1 & H2).
  - reflexivity.
  - reflexivity.
  - left; reflexivity.
  - reflexivity.
  - left; reflexivity.
  - exact (conj H1 H2).
Defined.

End Main.

(* ================================================================= *)
(** ** More on the commit classifier *)

Section ClassifierMore.
Import PyStr Re BumpVersion Wording.



(** X2.  The answer for two batches of commits put together is the
    stronger of the answers for each batch, so commits that match nothing
    change no answer. *)
Theorem analyze_commits_app (l1 l2 : list string) :
  analyze_commits (l1 ++ l2)%list
  = stronger (analyze_commits l1) (analyze_commits l2).
Proof.
  rewrite !analyze_commits_eq, !existsb_app.
  destruct (existsb is_breaking l1), (existsb is_breaking l2),
    (existsb (any_match feature_fix_patterns) l1),
    (existsb (any_match feature_fix_patterns) l2); reflexivity.
Qed.

End ClassifierMore.

(* ================================================================= *)
(** ** More on lines, version files and bumps *)

Section VersionsMore.
Import PyStr Re Proc BumpVersion Wording.

Lemma split_nonempty (sep : ascii) (s : string) : split sep s <> [].
Proof.
  destruct s as [|c r]; simpl; [discriminate|].
  destruct (Ascii.eqb c sep); [discriminate|].
  destruct (split sep r); discriminate.
Qed.

Lemma split_parts (sep : ascii) (s x : string) :
  In x (split sep s) -> sall (fun c => negb (Ascii.eqb c sep)) x = true.
Proof.
  revert x; induction s as [|c r IH]; simpl; intros x Hx.
  - destruct Hx as [<- | []]. reflexivity.
  - destruct (Ascii.eqb c sep) eqn:E.
    + destruct Hx as [<- | Hx]; [reflexivity | auto].
    + destruct (split sep r) as [|h t].
      * destruct Hx as [<- | []]. simpl. now rewrite E.
      * destruct Hx as [<- | Hx].
        -- simpl. rewrite E. simpl. apply IH. now left.
        -- apply IH. now right.
Qed.

(** Joining the parts with the separator gives the text back. *)
Lemma join_split (sep : ascii) (s : string) :
  join (String sep "") (split sep s) = s.
Proof.
  unfold join. induction s as [|c r IH]; simpl; [reflexivity|].
  pose proof (split_nonempty sep r) as Hne.
  destruct (Ascii.eqb_spec c sep) as [-> | Hc].
  - destruct (split sep r) as [|h t]; [congruence|].
    simpl in *. now rewrite IH.
  - destruct (split sep r) as [|h t]; [congruence|].
    destruct t; simpl in *; now rewrite <- IH.
Qed.

Lemma length_split (sep : ascii) (s : string) :
  List.length (split sep s) = S (count_char sep s).
Proof.
  induction s as [|c r IH]; simpl; [reflexivity|].
  destruct (Ascii.eqb c sep).
  - simpl. now rewrite IH.
  - destruct (split sep r); simpl in *; congruence.
Qed.

(** What [rstrip] leaves does not end with white space. *)
Lemma rstrip_last (s p : string) (c : ascii) :
  rstrip s = p ++ String c "" -> isspace c = false.
Proof.
  revert p; induction s as [|x r IH]; simpl; intros p H.
  - destruct p; discriminate.
  - destruct (rstrip r) as [|y r'] eqn:E.
    + destruct (isspace x) eqn:Hx.
      * destruct p; discriminate.
      * destruct p as [|z p]; simpl in H.
        -- now injection H as <-.
        -- injection H as _ H. destruct p; discriminate.
    + destruct p as [|z p]; simpl in H; [discriminate|].
      injection H as _ H. now apply (IH p).
Qed.

(** A stripped text that the version pattern accepts is digits, a dot
    and digits: the line feed that [$] tolerates cannot be there. *)
Lemma stripped_version_shape (text : string) :
  valid_version (strip text) = true -> digits_dot_digits (strip text).
Proof.
  intros H. apply valid_version_spec in H as (p & q & E & Hp & [-> | ->]).
  - rewrite sapp_nil_r in E. now rewrite E.
  - unfold strip in E. apply rstrip_last in E. discriminate.
Qed.

Lemma shape_not_space (v : string) :
  digits_dot_digits v ->
  v <> "" /\ sall (fun c => negb (isspace c)) v = true.
Proof.
  intros (a & b & -> & Ha & Hb & Da & Db). split.
  - destruct a; [congruence | discriminate].
  - rewrite sall_app. rewrite (digits_not_space _ Da). simpl.
    now rewrite (digits_not_space _ Db).
Qed.

(** X3.  Every commit that [get_git_commits_since_last_tag] returns is a
    single line, and the commits are the lines of what one of the two
    [git log] calls printed: joined by line feeds they give that output
    back, stripped. *)
Theorem git_commits_are_lines (g : Git) :
  (forall c, In c (get_git_commits_since_last_tag g) -> one_line c)
  /\ (get_git_commits_since_last_tag g = []
      \/ exists out,
           (log_all g = Some out \/ exists tag, log_since g tag = Some out)
           /\ join nl (get_git_commits_since_last_tag g) = strip out).
Proof.
  unfold get_git_commits_since_last_tag.
  set (result := match (if (describe_returncode g =? 0)%Z
                        then Some (strip (describe_stdout g)) else None) with
                 | Some (String c t) => log_since g (String c t)
                 | _ => log_all g
                 end).
  assert (Hsrc : forall out, result = Some out ->
                   log_all g = Some out \/ exists tag, log_since g tag = Some out).
  { intros out. unfold result.
    destruct (describe_returncode g =? 0)%Z; [|auto].
    destruct (strip (describe_stdout g)); eauto. }
  destruct result as [[|c out]|]; split; auto.
  - intros x []. 
  - intros x Hx. unfold one_line, not_lf.
    exact (split_parts LF (strip (String c out)) x Hx).
  - right. exists (String c out). split; [now apply Hsrc|].
    apply join_split.
  - intros x [].
Qed.



Lemma read_written_version (v path : string) (st : state) :
  digits_dot_digits v ->
  read_current_version path (snd (write_version v path st))
  = (Done v, snd (write_version v path st)).
Proof.
  intros Hv. rewrite read_current_version_eq.
  unfold write_version, write_text. cbn [snd fs].
  rewrite String.eqb_refl.
  destruct (shape_not_space v Hv) as [Hne Hs].
  rewrite (strip_tail v nl Hne Hs eq_refl).
  now rewrite (shape_valid v Hv).
Qed.

(** X5.  A version of the shape digits, dot, digits that [write_version]
    writes is read back by [read_current_version] as it was. *)
Theorem write_then_read_version (v path : string) (st : state) :
  digits_dot_digits v ->
  read_current_version path (snd (write_version v path st))
  = (Done v, snd (write_version v path st)).
Proof. apply read_written_version. Qed.

Lemma sample_shape : digits_dot_digits "12.0".
Proof. exists "12", "0". repeat split; discriminate. Qed.

Lemma write_then_read_version_witness :
  read_current_version "VERSION"
    (snd (write_version "12.0" "VERSION" Samples.start))
  = (Done "12.0", snd (write_version "12.0" "VERSION" Samples.start)).
Proof. apply write_then_read_version. exact sample_shape. Defined.

(** X6.  [bump_version] raises [ValueError] on every string that does not
    hold exactly one dot, whatever the bump type, also when the bump type
    asks for no change. *)
Theorem bump_version_needs_one_dot (s kind : string) :
  count_char "." s <> 1%nat -> bump_version s kind = None.
Proof.
  intros H. unfold bump_version, parse_version.
  pose proof (length_split "." s) as L.
  destruct (split "." s) as [|a [|b [|c l]]]; simpl in *;
    try reflexivity.
  - destruct (int a); reflexivity.
  - congruence.
  - destruct (int a); [|reflexivity]. destruct (int b); reflexivity.
Qed.

Lemma bump_version_needs_one_dot_witness :
  bump_version "3.7.1" "none" = None.
Proof. apply bump_version_needs_one_dot. vm_compute. discriminate. Defined.






End VersionsMore.

(* ================================================================= *)
(** ** More on the changelog *)

Section ChangelogMore.
Import PyStr Re Proc BumpVersion Wording.


Lemma find_insert_index_bound (lines : list string) (k n : nat) :
  find_insert_index lines k = Some n -> (k + 2 <= n)%nat.
Proof.
  revert k; induction lines as [|line rest IH]; intros k; [discriminate|].
  cbn [find_insert_index].
  destruct (String.eqb (strip line) "---" && (k <? 20)%nat).
  - intros [= <-]. lia.
  - intros H. apply IH in H. lia.
Qed.

Lemma join_app (sep : string) (xs ys : list string) :
  xs <> [] -> ys <> [] ->
  join sep (xs ++ ys)%list = join sep xs ++ sep ++ join sep ys.
Proof.
  unfold join. intros Hx Hy. induction xs as [|x xs IH]; [congruence|].
  destruct xs as [|x' xs].
  - destruct ys; [congruence | reflexivity].
  - change (String.concat sep ((x :: x' :: xs) ++ ys)%list)
      with (x ++ sep ++ String.concat sep ((x' :: xs) ++ ys)%list).
    rewrite IH by discriminate.
    change (String.concat sep (x :: x' :: xs))
      with (x ++ sep ++ String.concat sep (x' :: xs)).
    now rewrite !sapp_assoc.
Qed.

(** The text after an insertion at index [n >= 1]. *)
Lemma inserted_text (n : nat) (entry content : string) :
  (1 <= n)%nat ->
  (exists A B,
      content = A ++ nl ++ B
      /\ join nl (list_insert n entry (split LF content))
         = A ++ nl ++ entry ++ nl ++ B)
  \/ join nl (list_insert n entry (split LF content))
     = content ++ nl ++ entry.
Proof.
  intros Hn. unfold list_insert.
  pose proof (split_nonempty LF content) as Hne.
  pose proof (join_split LF content) as Hjoin. fold nl in Hjoin.
  pose proof (firstn_skipn n (split LF content)) as Hcut.
  assert (Hfirst : firstn n (split LF content) <> []).
  { destruct n as [|n]; [lia|].
    destruct (split LF content); [congruence | discriminate]. }
  destruct (skipn n (split LF content)) as [|y ys] eqn:Hskip.
  - right. rewrite app_nil_r in Hcut. rewrite Hcut.
    rewrite join_app by (assumption || discriminate).
    now rewrite Hjoin.
  - left. exists (join nl (firstn n (split LF content))), (join nl (y :: ys)).
    split.
    + rewrite <- Hjoin at 1. rewrite <- Hcut at 1.
      apply join_app; [assumption | discriminate].
    + rewrite join_app by (assumption || discriminate).
      change (entry :: y :: ys) with ([entry] ++ y :: ys)%list.
      rewrite (join_app nl [entry] (y :: ys)) by discriminate.
      reflexivity.
Qed.



Lemma update_changelog_frame
    (today new_version bump_type path : string) (st st' : state)
    (r : result unit) :
  update_changelog today new_version bump_type path st = (r, st') ->
  r = Done tt
  /\ stdout st' = stdout st
  /\ (forall q, q <> path -> fs st' q = fs st q)
  /\ (st' = st
      \/ exists content,
           fs st path = Some content
           /\ ((exists A B,
                   content = A ++ nl ++ B
                   /\ fs st' path
                      = Some (A ++ nl
                              ++ new_entry new_version today bump_type
                              ++ nl ++ B))
               \/ fs st' path
                  = Some (content ++ nl
                          ++ new_entry new_version today bump_type))).
Proof.
  rewrite update_changelog_eq.
  destruct (fs st path) as [content|] eqn:Hc;
    [|intros [= <- <-]; auto 6].
  destruct (contains (header new_version) content);
    [intros [= <- <-]; auto 6|].
  destruct (find_insert_index (split LF content) 0) as [[|k]|] eqn:Hf.
  - intros [= <- <-]; auto 6.
  - unfold write_text. intros [= <- <-]. cbn [fs stdout].
    split; [reflexivity | split; [reflexivity | split]].
    + intros q Hq. apply String.eqb_neq in Hq. now rewrite Hq.
    + right. exists content. split; [reflexivity|].
      rewrite String.eqb_refl.
      destruct (inserted_text (S k) (new_entry new_version today bump_type)
                  content) as [(A & B & HA & E) | E]; [lia | |].
      * left. exists A, B. now rewrite E.
      * right. now rewrite E.
  - intros [= <- <-]; auto 6.
Qed.



End ChangelogMore.

(* ================================================================= *)
(** ** More on the runs of [main] *)

Section MainMore.
Import PyStr Re Proc BumpVersion Wording.

(** [main], one step after the other. *)
Lemma main_eq (w : World) (args : Args) (st : state) :
  main w args st =
  match fs st (arg_version_file args) with
  | None => (Exit 1%Z, st)
  | Some text =>
      if valid_version (strip text)
      then
        match choose_version w args (strip text) st with
        | (Done (new_version, bump_type), st1) =>
            if String.eqb new_version (strip text)
            then (Exit 0%Z, mkState (fs st1) (stdout st1 ++ [strip text])%list)
            else if arg_dry_run args
            then (Exit 0%Z, mkState (fs st1) (stdout st1 ++ [new_version])%list)
            else
              match make_changes w args new_version bump_type st1 with
              | (Done _, st2) =>
                  (Done tt, mkState (fs st2) (stdout st2 ++ [new_version])%list)
              | (Exit c, st2) => (Exit c, st2)
              | (Raised e, st2) => (Raised e, st2)
              end
        | (Exit c, st1) => (Exit c, st1)
        | (Raised e, st1) => (Raised e, st1)
        end
      else (Exit 1%Z, st)
  end.
Proof.
  unfold main. unfold bind at 1. rewrite read_current_version_eq.
  destruct (fs st (arg_version_file args)) as [text|]; [|reflexivity].
  destruct (valid_version (strip text)); [|reflexivity].
  unfold bind at 1.
  destruct (choose_version w args (strip text) st) as [[[nv bt] | c | e] st1];
    try reflexivity.
  cbn [fst snd]. destruct (String.eqb nv (strip text)); [reflexivity|].
  destruct (arg_dry_run args); [reflexivity|].
  unfold bind at 1.
  destruct (make_changes w args nv bt st1) as [[[] | c | e] st2]; reflexivity.
Qed.

(** The version [main] settles on has the shape digits, dot, digits. *)
Lemma choose_version_shape (w : World) (args : Args) (cur : string)
    (st : state) :
  digits_dot_digits cur ->
  (exists new_version bump_type,
      choose_version w args cur st = (Done (new_version, bump_type), st)
      /\ digits_dot_digits new_version
      /\ (arg_manual args = None \/ arg_manual args = Some "" ->
          arg_type args <> Auto ->
          bump_type = choice_name (arg_type args)
          /\ bump_version cur bump_type = Some new_version))
  \/ choose_version w args cur st = (Exit 1%Z, st)
  \/ (choose_version w args cur st
      = (Exit 0%Z, mkState (fs st) (stdout st ++ [cur])%list)
      /\ arg_type args = Auto).
Proof.
  intros Hcur. unfold choose_version.
  assert (Hauto :
            forall bt,
              exists new_version,
                (match bump_version cur bt with
                 | Some new_version => ret (new_version, bt)
                 | None => raise "ValueError"
                 end) st = (Done (new_version, bt), st)
                /\ digits_dot_digits new_version
                /\ bump_version cur bt = Some new_version).
  { intros bt.
    destruct (bump_version_valid cur bt (shape_valid cur Hcur))
      as (r & -> & _ & Hr & _).
    exists r. repeat split. now apply Hr. }
  assert (Hrest :
            (exists new_version bump_type,
                bind
                  match arg_type args with
                  | Auto =>
                      if no_commits (get_git_commits_since_last_tag (git w))
                      then bind (print cur) (fun _ => sys_exit 0%Z)
                      else ret (analyze_commits
                                  (get_git_commits_since_last_tag (git w)))
                  | choice => ret (choice_name choice)
                  end
                  (fun bump_type =>
                     match bump_version cur bump_type with
                     | Some new_version => ret (new_version, bump_type)
                     | None => raise "ValueError"
                     end) st
                = (Done (new_version, bump_type), st)
                /\ digits_dot_digits new_version
                /\ (arg_type args <> Auto ->
                    bump_type = choice_name (arg_type args)
                    /\ bump_version cur bump_type = Some new_version))
            \/ (bind
                  match arg_type args with
                  | Auto =>
                      if no_commits (get_git_commits_since_last_tag (git w))
                      then bind (print cur) (fun _ => sys_exit 0%Z)
                      else ret (analyze_commits
                                  (get_git_commits_since_last_tag (git w)))
                  | choice => ret (choice_name choice)
                  end
                  (fun bump_type =>
                     match bump_version cur bump_type with
                     | Some new_version => ret (new_version, bump_type)
                     | None => raise "ValueError"
                     end) st
                = (Exit 0%Z, mkState (fs st) (stdout st ++ [cur])%list)
                /\ arg_type args = Auto)).
  { destruct (arg_type args) eqn:Ht.
    - destruct (no_commits (get_git_commits_since_last_tag (git w))).
      + right. split; reflexivity.
      + left. unfold bind, ret at 1.
        destruct (Hauto (analyze_commits
                           (get_git_commits_since_last_tag (git w))))
          as (nv & E & Hs & _).
        exists nv, (analyze_commits (get_git_commits_since_last_tag (git w))).
        split; [exact E | split; [exact Hs | congruence]].
    - left. unfold bind, ret at 1.
      destruct (Hauto (choice_name ChooseMajor)) as (nv & E & Hs & Hb).
      exists nv, (choice_name ChooseMajor). repeat split; auto.
    - left. unfold bind, ret at 1.
      destruct (Hauto (choice_name ChooseMinor)) as (nv & E & Hs & Hb).
      exists nv, (choice_name ChooseMinor). repeat split; auto. }
  destruct (arg_manual args) as [[|c m]|].
  - destruct Hrest as [(nv & bt & E & Hs & Hb) | [E Ht]].
    + left. exists nv, bt. repeat split; auto; now apply Hb.
    + right; right. auto.
  - destruct (valid_version (strip (String c m))) eqn:V; cbn [negb].
    + left. exists (strip (String c m)), "manual".
      split; [reflexivity|]. split; [now apply stripped_version_shape|].
      intros [H | H]; discriminate.
    + right; left. reflexivity.
  - destruct Hrest as [(nv & bt & E & Hs & Hb) | [E Ht]].
    + left. exists nv, bt. repeat split; auto; now apply Hb.
    + right; right. auto.
Qed.

(** What [make_changes] leaves when it returns. *)
Lemma make_changes_done (w : World) (args : Args)
    (new_version bump_type : string) (st st3 : state) :
  arg_changelog_file args <> arg_version_file args ->
  make_changes w args new_version bump_type st = (Done tt, st3) ->
  stdout st3 = stdout st
  /\ exists st2,
       fs st2 (arg_version_file args) = Some (new_version ++ nl)
       /\ (fs st3 = fs st2
           \/ exists out,
                sync_run w (arg_version_file args) (fs st2)
                = (SyncOk out, fs st3)).
Proof.
  intros Hpaths.
  destruct (make_changes_cases w args new_version bump_type st)
    as (st1 & st2 & Hw & Hu & Hout & _).
  assert (E : make_changes w args new_version bump_type st
              = run_version_sync w (arg_version_file args) st2).
  { unfold make_changes. unfold bind at 1. rewrite Hw.
    unfold bind at 1. now rewrite Hu. }
  rewrite E.
  assert (Hv : fs st2 (arg_version_file args) = Some (new_version ++ nl)).
  { destruct (update_changelog_frame _ _ _ _ _ _ _ Hu) as (_ & _ & Hf & _).
    rewrite Hf by congruence.
    unfold write_version, write_text in Hw. injection Hw as <-.
    cbn [fs]. now rewrite String.eqb_refl. }
  unfold run_version_sync, bind, read, ret.
  destruct (fs st2 (version_sync_script w)).
  - destruct (sync_run w (arg_version_file args) (fs st2))
      as [[out | err] fs'] eqn:Hr; [|discriminate].
    intros [= <-]. cbn [fs stdout]. split; [exact Hout|].
    exists st2. split; [exact Hv|]. right. now exists out.
  - intros [= <-]. split; [exact Hout|]. exists st2. auto.
Qed.





(** X13.  When a run returns normally, the changelog is another file
    than the version file and a successful synchronisation leaves the
    version file alone, the version file holds the version that was
    printed, followed by a line feed, and the next run reads that version
    back. *)
Theorem main_done_version_file (w : World) (args : Args) (st st' : state) :
  arg_changelog_file args <> arg_version_file args ->
  (forall f out f',
      sync_run w (arg_version_file args) f = (SyncOk out, f') ->
      f' (arg_version_file args) = f (arg_version_file args)) ->
  main w args st = (Done tt, st') ->
  exists v,
    stdout st' = (stdout st ++ [v])%list
    /\ fs st' (arg_version_file args) = Some (v ++ nl)
    /\ read_current_version (arg_version_file args) st' = (Done v, st').
Proof.
  intros Hpaths Hsync. rewrite main_eq.
  destruct (fs st (arg_version_file args)) as [text|]; [|discriminate].
  destruct (valid_version (strip text)) eqn:V; [|discriminate].
  pose proof (stripped_version_shape text V) as Hcur.
  destruct (choose_version_shape w args (strip text) st Hcur)
    as [(nv & bt & -> & Hnv & _) | [-> | [-> _]]]; try discriminate.
  destruct (String.eqb nv (strip text)); [discriminate|].
  destruct (arg_dry_run args); [discriminate|].
  destruct (make_changes w args nv bt st) as [[[] | c | e] st3] eqn:Hm;
    try discriminate.
  intros [= <-]. cbn [fs stdout].
  destruct (make_changes_done w args nv bt st st3 Hpaths Hm)
    as (Hout & st2 & Hv & Hfs).
  assert (Hfile : fs st3 (arg_version_file args) = Some (nv ++ nl)).
  { destruct Hfs as [-> | (out & Hr)]; [exact Hv|].
    now rewrite (Hsync _ _ _ Hr). }
  exists nv. rewrite Hout. repeat split; [exact Hfile|].
  rewrite read_current_version_eq. cbn [fs]. rewrite Hfile.
  destruct (shape_not_space nv Hnv) as [Hne Hs].
  rewrite (strip_tail nv nl Hne Hs eq_refl).
  now rewrite (shape_valid nv Hnv).
Qed.

Lemma main_done_version_file_witness :
  exists v,
    stdout (snd (main Samples.good_world Samples.major_args Samples.start))
    = ([] ++ [v])%list
    /\ fs (snd (main Samples.good_world Samples.major_args Samples.start))
          "VERSION" = Some (v ++ nl)
    /\ read_current_version "VERSION"
         (snd (main Samples.good_world Samples.major_args Samples.start))
       = (Done v,
          snd (main Samples.good_world Samples.major_args Samples.start)).
Proof.
  apply (main_done_version_file Samples.good_world Samples.major_args
           Samples.start).
  - discriminate.
  - intros f out f' [= _ <-]. reflexivity.
  - reflexivity.
Defined.



(** X15.  A manual version makes [main] independent of the answers of
    [git] and of [--type]. *)
Theorem main_manual_ignores_git (w : World) (args : Args) (st : state)
    (g' : Git) (type' : bump_choice) (c : ascii) (m : string) :
  arg_manual args = Some (String c m) ->
  main (mkWorld g' (today w) (project_root w) (sync_run w))
       (mkArgs type' (arg_manual args) (arg_dry_run args)
               (arg_version_file args) (arg_changelog_file args)) st
  = main w args st.
Proof.
  intros Hm. destruct w as [g t root sync].
  destruct args as [ty manual dry vf cf]. cbn in Hm. subst manual.
  reflexivity.
Qed.

Lemma main_manual_ignores_git_witness :
  main (mkWorld (mkGit 0 "v3.7" (fun _ => Some "feat!: x") None)
                "2024-05-01" "/repo" Samples.sync_ok)
       (mkArgs ChooseMajor (Some "3.9") false "VERSION" "CHANGELOG.md")
       Samples.start
  = main Samples.good_world Samples.manual_ok_args Samples.start.
Proof.
  apply (main_manual_ignores_git Samples.good_world Samples.manual_ok_args
           Samples.start (mkGit 0 "v3.7" (fun _ => Some "feat!: x") None)
           ChooseMajor "3"%char ".9").
  reflexivity.
Defined.

(** X16.  When the history cannot be read, both [git log] calls failing,
    an automatic run is no error: it prints the current version, ends
    with status 0 and writes nothing. *)
Theorem main_unreadable_history (w : World) (args : Args) (st : state)
    (text : string) :
  fs st (arg_version_file args) = Some text ->
  valid_version (strip text) = true ->
  arg_manual args = None \/ arg_manual args = Some "" ->
  arg_type args = Auto ->
  log_all (git w) = None ->
  (forall tag, log_since (git w) tag = None) ->
  main w args st
  = (Exit 0%Z, mkState (fs st) (stdout st ++ [strip text])%list).
Proof.
  intros Hv V Hm Ht Hall Hsince.
  assert (N : get_git_commits_since_last_tag (git w) = []).
  { unfold get_git_commits_since_last_tag.
    destruct (describe_returncode (git w) =? 0)%Z; [|now rewrite Hall].
    destruct (strip (describe_stdout (git w)));
      [now rewrite Hall | now rewrite Hsince]. }
  rewrite main_eq, Hv, V. unfold choose_version.
  destruct Hm as [-> | ->]; rewrite Ht, N; reflexivity.
Qed.

Lemma main_unreadable_history_witness :
  main Samples.world Samples.auto_args Samples.start
  = (Exit 0%Z, mkState Samples.files ([] ++ ["3.7"])%list).
Proof.
  apply (main_unreadable_history Samples.world Samples.auto_args
           Samples.start ("3.7" ++ nl)).
  - reflexivity.
  - reflexivity.
  - left; reflexivity.
  - reflexivity.
  - reflexivity.
  - intros tag. reflexivity.
Defined.

End MainMore.

(* ================================================================= *)
(** ** The validator and the classifier together *)

Section ValidatorMore.
Import PyStr Re Proc BumpVersion ValidateCommits Wording.

Lemma feat_or_fix_head (ty : string) :
  feat_or_fix ty ->
  exists x t, ty = String x t /\ lower_char x = "f"%char.
Proof.
  unfold feat_or_fix, ci_eq.
  intros [H | H]; destruct ty as [|x t]; try discriminate;
    simpl in H; injection H as Hx _; eauto.
Qed.

Lemma startswith_other_head (a x : ascii) (p s : string) :
  lower_char x = "f"%char -> lower_char a <> "f"%char ->
  startswith (String a p) (String x s) = false.
Proof.
  intros Hx Ha. simpl. destruct (Ascii.eqb_spec a x) as [-> | _];
    [contradiction | reflexivity].
Qed.

Lemma scope_letter_not_lf (c : ascii) :
  scope_letter c = true -> not_lf c = true.
Proof. each_char c; intros H; try reflexivity; discriminate H. Qed.

Lemma scope_one_line (sc : string) :
  paren_scope scope_text sc -> paren_scope one_line sc /\ one_line sc.
Proof.
  unfold paren_scope, scope_text, one_line.
  intros [-> | (t & -> & Hne & Ht)].
  - split; [now left | reflexivity].
  - assert (Hl : sall not_lf t = true)
      by (revert Ht; apply sall_impl, scope_letter_not_lf).
    split.
    + right. exists t. auto.
    + simpl. now rewrite sall_app, Hl.
Qed.

(** X17.  A message with a [feat] or [fix] type that the validator
    accepts as conventional always asks for a bump: [analyze_commits]
    does not answer [none] on it, and answers [major] when the [!] is
    there. *)
Theorem conventional_feat_fix_bumps
    (m ty sc bang : string) (ws c : ascii) (rest : string) :
  m = ty ++ sc ++ bang ++ ":" ++ String ws (String c rest) ->
  feat_or_fix ty ->
  paren_scope scope_text sc ->
  bang = "" \/ bang = "!" ->
  isspace ws = true ->
  c <> LF ->
  is_conventional_commit m = (true, "conventional")
  /\ analyze_commits [m] <> "none"
  /\ (bang = "!" -> analyze_commits [m] = "major").
Proof.
  intros Hm Hty Hsc Hbang Hws Hc.
  destruct (feat_or_fix_head ty Hty) as (x & t & Ex & Hx).
  destruct (scope_one_line sc Hsc) as [Hps Hol].
  split; [|].
  - unfold is_conventional_commit.
    assert (M : startswith "Merge " m = false).
    { rewrite Hm, Ex. apply startswith_other_head; [exact Hx | discriminate]. }
    assert (A : startswith "chore: bump version" m = false).
    { rewrite Hm, Ex. apply startswith_other_head; [exact Hx | discriminate]. }
    rewrite M, A.
    assert (P : rmatch pattern m = true).
    { apply match_pattern. exists ty, sc, bang, ws, c, rest.
      repeat split; auto.
      destruct Hty as [H | H]; [exists "feat" | exists "fix"];
        (split; [simpl; auto | exact H]). }
    now rewrite P.
  - rewrite analyze_commits_eq. cbn [existsb]. rewrite !orb_false_r.
    assert (Major : bang = "!" -> is_breaking m = true).
    { intros ->. apply is_breaking_spec. right; left.
      exists ty, sc, (String ws (String c rest)). rewrite Hm. auto. }
    destruct Hbang as [-> | ->].
    + assert (F : any_match feature_fix_patterns m = true).
      { apply is_feature_fix_spec.
        exists ty, sc, (String ws (String c rest)). rewrite Hm. auto. }
      rewrite F. split; [|discriminate].
      destruct (is_breaking m); discriminate.
    + rewrite (Major eq_refl). split; [discriminate | reflexivity].
Qed.

Lemma conventional_feat_fix_bumps_witness :
  is_conventional_commit "Fix(api)!: drop v1" = (true, "conventional")
  /\ analyze_commits ["Fix(api)!: drop v1"] <> "none"
  /\ ("!" = "!" -> analyze_commits ["Fix(api)!: drop v1"] = "major").
Proof.
  apply (conventional_feat_fix_bumps "Fix(api)!: drop v1" "Fix" "(api)" "!"
           " "%char "d"%char "rop v1").
  - reflexivity.
  - right. reflexivity.
  - right. exists "api". repeat split. discriminate.
  - right. reflexivity.
  - reflexivity.
  - discriminate.
Defined.

(** Splitting at [|||]. *)
Lemma split_on_length (sep : string) (k : nat) (s : string) :
  (1 <= List.length (split_on sep k s))%nat.
Proof.
  revert k; induction s as [|c r IH]; intros k; simpl; [lia|].
  destruct k as [|k]; [|apply IH].
  destruct (startswith sep (String c r)); [simpl; lia|].
  specialize (IH 0%nat). destruct (split_on sep 0 r); simpl in *; lia.
Qed.

Lemma split_on_none (sep s : string) :
  contains sep s = false -> split_on sep 0 s = [s].
Proof.
  induction s as [|c r IH]; intros H; [reflexivity|].
  cbn [contains] in H. apply orb_false_iff in H as [H1 H2].
  cbn [split_on]. now rewrite H1, (IH H2).
Qed.

Lemma split_on_some (sep s : string) :
  sep <> "" -> contains sep s = true ->
  (2 <= List.length (split_on sep 0 s))%nat.
Proof.
  intros Hsep. induction s as [|c r IH]; intros H.
  - destruct sep; [congruence | discriminate].
  - cbn [contains] in H. cbn [split_on].
    destruct (startswith sep (String c r)).
    + pose proof (split_on_length sep (String.length sep - 1) r).
      simpl. lia.
    + specialize (IH H). destruct (split_on sep 0 r); simpl in *; lia.
Qed.

Lemma split_on_bar (h m : string) :
  sall (fun c => negb (Ascii.eqb c "|")) h = true ->
  split_on "|||" 0 (h ++ "|||" ++ m) = h :: split_on "|||" 0 m.
Proof.
  induction h as [|c h IH]; intros H.
  - reflexivity.
  - simpl in H. apply andb_true_iff in H as [Hc Hh].
    apply negb_true_iff in Hc.
    change (String c h ++ "|||" ++ m) with (String c (h ++ "|||" ++ m)).
    cbn [split_on]. 
    assert (E : startswith "|||" (String c (h ++ "|||" ++ m)) = false).
    { cbn [startswith]. destruct (Ascii.eqb_spec "|" c) as [<- | _];
        [discriminate Hc | reflexivity]. }
    now rewrite E, (IH Hh).
Qed.

(** X18.  A line of the log without [|||] gives no commit.  A line made
    of a hash without [|], then [|||], then the subject gives one commit
    with the first eight characters of the hash, unless [|||] occurs in
    the subject: then the line gives no commit, so the commit is never
    validated. *)
Theorem commit_of_line_parse (line : string) :
  (contains "|||" line = false -> commit_of_line line = [])
  /\ (forall h m,
        line = h ++ "|||" ++ m ->
        sall (fun c => negb (Ascii.eqb c "|")) h = true ->
        commit_of_line line
        = if contains "|||" m then [] else [mkCommit (take 8 h) m]).
Proof.
  split.
  - intros H. unfold commit_of_line. rewrite (split_on_none _ _ H).
    now destruct line.
  - intros h m -> Hh. unfold commit_of_line.
    rewrite (split_on_bar h m Hh).
    assert (Hne : h ++ "|||" ++ m <> "") by (destruct h; discriminate).
    destruct (h ++ "|||" ++ m) eqn:E; [congruence|].
    destruct (contains "|||" m) eqn:C.
    + assert (L := split_on_some "|||" m ltac:(discriminate) C).
      destruct (split_on "|||" 0 m) as [|p1 [|p2 ps]]; simpl in L;
        [lia | lia | reflexivity].
    + now rewrite (split_on_none _ _ C).
Qed.

Lemma commit_of_line_parse_witness :
  commit_of_line "0123456789abcdef|||docs: a ||| b" = []
  /\ commit_of_line "0123456789abcdef|||docs: a"
     = [mkCommit "01234567" "docs: a"].
Proof.
  split.
  - destruct (commit_of_line_parse "0123456789abcdef|||docs: a ||| b")
      as [_ H].
    apply (H "0123456789abcdef" "docs: a ||| b"); reflexivity.
  - destruct (commit_of_line_parse "0123456789abcdef|||docs: a") as [_ H].
    apply (H "0123456789abcdef" "docs: a"); reflexivity.
Defined.

(** The functions of the validator return and write no file. *)
Lemma print_help_done (st : state) :
  exists st', print_help st = (Done tt, st') /\ fs st' = fs st.
Proof. eexists. split; reflexivity. Qed.

Lemma get_pr_commits_done (w : PrWorld) (st : state) :
  exists cs st', get_pr_commits w st = (Done cs, st') /\ fs st' = fs st.
Proof.
  unfold get_pr_commits.
  destruct (merge_base w _) as [out|].
  - destruct (log_range w _) as [log|].
    + eexists _, _. split; reflexivity.
    + eexists _, _. split; reflexivity.
  - eexists _, _. split; reflexivity.
Qed.

Lemma check_commits_done (cs invalid : list Commit) (st : state) :
  exists st',
    check_commits cs invalid st
    = (Done (invalid ++ filter (fun c => negb (accepted c)) cs)%list, st')
    /\ fs st' = fs st
    /\ List.length (stdout st')
       = (List.length (stdout st) + List.length cs)%nat.
Proof.
  revert invalid st; induction cs as [|c cs IH]; intros invalid st.
  - exists st. cbn. rewrite app_nil_r, Nat.add_0_r. auto.
  - cbn [check_commits filter]. unfold accepted at 1.
    destruct (is_conventional_commit (message c)) as [[|] reason];
      cbn [fst negb].
    + unfold bind at 1, print at 1.
      destruct (IH invalid (mkState (fs st)
                  (stdout st ++ [("✅ " ++ hash c ++ ": "
                                  ++ take 60 (message c) ++ "...")%string])%list))
        as (st' & E & Hf & Hl).
      exists st'. rewrite E. repeat split; auto.
      rewrite Hl. cbn [stdout]. rewrite length_app. simpl. lia.
    + unfold bind at 1, print at 1.
      destruct (IH (invalid ++ [c])%list
                  (mkState (fs st)
                     (stdout st ++ [("❌ " ++ hash c ++ ": "
                                     ++ take 60 (message c) ++ "...")%string])%list))
        as (st' & E & Hf & Hl).
      exists st'. rewrite E, <- app_assoc. repeat split; auto.
      rewrite Hl. cbn [stdout]. rewrite length_app. simpl. lia.
Qed.

Lemma rejected_none (cs : list Commit) :
  filter (fun c => negb (accepted c)) cs = [] <-> forallb accepted cs = true.
Proof.
  induction cs as [|c cs IH]; simpl; [tauto|].
  destruct (accepted c); simpl; [exact IH|].
  split; discriminate.
Qed.

Lemma validate_commits_done (w : PrWorld) (st : state)
    (cs : list Commit) (st0 : state) :
  get_pr_commits w st = (Done cs, st0) ->
  exists st',
    validate_commits w st = (Done (forallb accepted cs), st')
    /\ fs st' = fs st.
Proof.
  intros Hg.
  destruct (get_pr_commits_done w st) as (cs' & st0' & Hg' & Hf0).
  rewrite Hg in Hg'. injection Hg' as <- <-.
  unfold validate_commits. unfold bind at 1. rewrite Hg.
  destruct cs as [|c cs].
  - eexists. split; [reflexivity | exact Hf0].
  - unfold bind at 1, print at 1. unfold bind at 1.
    set (st1 := mkState (fs st0) _).
    destruct (check_commits_done (c :: cs) [] st1) as (st2 & E & Hf2 & _).
    rewrite E. cbn [List.app].
    unfold bind at 1, print at 1.
    destruct (filter (fun c0 => negb (accepted c0)) (c :: cs)) as [|b l] eqn:R.
    + apply rejected_none in R. rewrite R.
      eexists. split; [reflexivity|]. cbn [fs]. now rewrite Hf2.
    + assert (F : forallb accepted (c :: cs) = false).
      { apply not_true_is_false. intros T.
        apply rejected_none in T. congruence. }
      rewrite F. unfold bind at 1, print at 1. unfold bind at 1.
      set (st3 := mkState _ _).
      destruct (print_help_done st3) as (st4 & -> & Hf4).
      eexists. split; [reflexivity|].
      unfold ret. cbn [snd]. rewrite Hf4. unfold st3. cbn [fs].
      now rewrite Hf2.
Qed.

(** X19.  [validate_commits] writes no file and returns [True] exactly
    when [is_conventional_commit] accepts the message of every commit
    that [get_pr_commits] returns, so also when there is none. *)
Theorem validate_commits_result (w : PrWorld) (st : state)
    (cs : list Commit) (st0 : state) :
  get_pr_commits w st = (Done cs, st0) ->
  exists st',
    validate_commits w st = (Done (forallb accepted cs), st')
    /\ fs st' = fs st.
Proof. apply validate_commits_done. Qed.

Lemma validate_commits_result_witness :
  exists st',
    validate_commits Samples.pr_world Samples.start
    = (Done (forallb accepted
               [mkCommit "01234567" "feat: x"; mkCommit "aaaa" "bad msg"]),
       st')
    /\ fs st' = fs Samples.start.
Proof.
  apply (validate_commits_result Samples.pr_world Samples.start
           [mkCommit "01234567" "feat: x"; mkCommit "aaaa" "bad msg"]
           Samples.start).
  reflexivity.
Defined.



(** X21.  When a [git] call of [get_pr_commits] fails, the script reports
    success: it ends with status 0 although no commit was validated. *)
Theorem script_unreadable_commits (w : PrWorld) (arg_message : option string)
    (st : state) :
  arg_message = None \/ arg_message = Some "" ->
  (forall ref, merge_base w ref = None)
  \/ (forall range, log_range w range = None) ->
  exists st',
    script w arg_message st = (Exit 0%Z, st') /\ fs st' = fs st.
Proof.
  intros Hm Hfail.
  assert (Hg : exists st0, get_pr_commits w st = (Done [], st0)).
  { unfold get_pr_commits. destruct Hfail as [H | H].
    - rewrite H. eexists. reflexivity.
    - destruct (merge_base w _); rewrite ?H; eexists; reflexivity. }
  destruct Hg as (st0 & Hg).
  destruct (validate_commits_done w st [] st0 Hg) as (st1 & Hv & Hf1).
  exists st1. split; [|exact Hf1].
  unfold script. destruct Hm as [-> | ->]; unfold bind; now rewrite Hv.
Qed.

Lemma script_unreadable_commits_witness :
  exists st',
    script Samples.pr_no_git None Samples.start = (Exit 0%Z, st')
    /\ fs st' = fs Samples.start.
Proof.
  apply (script_unreadable_commits Samples.pr_no_git None Samples.start).
  - left; reflexivity.
  - left. intros ref. reflexivity.
Defined.

Lemma startswith_app (p m x : string) :
  startswith p m = true -> startswith p (m ++ x) = true.
Proof.
  rewrite !startswith_spec. intros [r ->]. exists (r ++ x).
  now rewrite sapp_assoc.
Qed.

Lemma rmatch_app (r : regex) (m x : string) :
  rmatch r m = true -> rmatch r (m ++ x) = true.
Proof.
  rewrite !rmatch_spec. intros (p & q & -> & H). exists p, (q ++ x).
  now rewrite sapp_assoc.
Qed.

(** X22.  Acceptance depends on the beginning of the message only: when
    [is_conventional_commit] accepts a message it accepts every message
    that continues it, further lines included. *)
Theorem is_conventional_commit_prefix (m x : string) :
  fst (is_conventional_commit m) = true ->
  fst (is_conventional_commit (m ++ x)) = true.
Proof.
  unfold is_conventional_commit.
  destruct (startswith "Merge " m) eqn:M.
  { now rewrite (startswith_app _ _ x M). }
  destruct (startswith "chore: bump version" m) eqn:A.
  { rewrite (startswith_app _ _ x A).
    now destruct (startswith "Merge " (m ++ x)). }
  destruct (rmatch pattern m) eqn:P; [|discriminate].
  rewrite (rmatch_app _ _ x P). intros _.
  destruct (startswith "Merge " (m ++ x)); [reflexivity|].
  now destruct (startswith "chore: bump version" (m ++ x)).
Qed.

Lemma is_conventional_commit_prefix_witness :
  fst (is_conventional_commit ("fix: typo" ++ nl ++ nl ++ "long body")) = true.
Proof.
  apply (is_conventional_commit_prefix "fix: typo" (nl ++ nl ++ "long body")).
  reflexivity.
Defined.

(** X23.  Every message that [is_conventional_commit] accepts begins with
    [Merge ] or holds a colon; in particular the empty message is
    refused. *)
Theorem is_conventional_commit_colon (m : string) :
  fst (is_conventional_commit m) = true ->
  (exists r, m = "Merge " ++ r) \/ contains ":" m = true.
Proof.
  unfold is_conventional_commit.
  destruct (startswith "Merge " m) eqn:M.
  { intros _. left. now apply startswith_spec. }
  destruct (startswith "chore: bump version" m) eqn:A.
  { intros _. right. apply startswith_spec in A as [r ->].
    apply contains_spec. exists "chore", (" bump version" ++ r).
    reflexivity. }
  destruct (rmatch pattern m) eqn:P; [|discriminate].
  intros _. right.
  apply match_pattern in P
    as (ty & sc & bang & ws & c & rest & -> & _).
  apply contains_spec.
  exists (ty ++ sc ++ bang), (String ws (String c rest)).
  now rewrite !sapp_assoc.
Qed.

Lemma is_conventional_commit_colon_witness :
  (exists r, "docs(readme): fix link" = "Merge " ++ r)
  \/ contains ":" "docs(readme): fix link" = true.
Proof.
  apply (is_conventional_commit_colon "docs(readme): fix link").
  reflexivity.
Defined.

End ValidatorMore.
